(** * qcdn: a failover reverse proxy with a redirect cache

    Shallow embedding of [qcdn.go] (package [qcdn]) and the properties of
    its path codec, its strategy table, its request handler and its
    redirect cache.

    Go strings are byte sequences: they are modelled by [string] (one
    [ascii] per byte).  Go maps are modelled by [gmap].  The pieces of the
    Go standard library the package calls ([strings.SplitN],
    [http.Client.Do], [http.Error], [url.Parse]) are modelled next to the
    code that uses them, each with a comment that says what is kept. *)

From Stdlib Require Import ZArith String Ascii List Lia Bool.
From stdpp Require Import base decidable countable gmap strings list.
Import ListNotations.
Local Open Scope string_scope.
Local Open Scope list_scope.
Local Open Scope Z_scope.

(* ===================================================================== *)
(** ** Go runtime and [strings] package *)
(* ===================================================================== *)

(** The outcome of a Go call that may panic. *)
Inductive go_result (A : Type) : Type :=
| Ret (a : A)
| Panic (msg : string).
Arguments Ret {A} a.
Arguments Panic {A} msg.

Module GoStrings.

(** [s[n:]]: the suffix from byte [n]; out of range ([n > len(s)]) is a
    run-time panic, here [None]. *)
Fixpoint slice_from (n : nat) (s : string) : option string :=
  match n, s with
  | O, _ => Some s
  | S n', String _ s' => slice_from n' s'
  | S _, EmptyString => None
  end.

(** [s[:n]] for [n <= len(s)]. *)
Fixpoint slice_to (n : nat) (s : string) : string :=
  match n, s with
  | S n', String c s' => String c (slice_to n' s')
  | _, _ => EmptyString
  end.

(** Dropping [n] bytes, the in-range part of [s[n:]]. *)
Fixpoint drop_bytes (n : nat) (s : string) : string :=
  match n, s with
  | S n', String _ s' => drop_bytes n' s'
  | _, _ => s
  end.

(** [strings.Index(s, sep)]: the byte offset of the first occurrence of
    [sep] in [s]; Go's [-1] is [None]. *)
Fixpoint Index (s sep : string) : option nat :=
  if String.prefix sep s then Some O
  else match s with
       | EmptyString => None
       | String _ s' => option_map S (Index s' sep)
       end.

(** The loop of [strings.genSplit]: at most [cuts] cuts, the rest of the
    string is the last piece. *)
Fixpoint genSplit (s sep : string) (cuts : nat) : list string :=
  match cuts with
  | O => [s]
  | S k =>
      match Index s sep with
      | None => [s]
      | Some m =>
          slice_to m s :: genSplit (drop_bytes (m + String.length sep) s) sep k
      end
  end.

(** [strings.SplitN(s, sep, n)] for a non-empty separator and [n >= 0]:
    no piece for [n = 0], otherwise at most [n] pieces ([n] is clamped
    to [len(s) + 1] as in Go). *)
Definition SplitN (s sep : string) (n : nat) : list string :=
  match n with
  | O => []
  | S k => genSplit s sep (Nat.min k (String.length s))
  end.

(** [strings.TrimPrefix(s, prefix)]. *)
Definition TrimPrefix (s pre : string) : string :=
  if String.prefix pre s then drop_bytes (String.length pre) s else s.

(** Whether byte [c] occurs in [s]. *)
Fixpoint has_byte (c : ascii) (s : string) : bool :=
  match s with
  | EmptyString => false
  | String d s' => if Ascii.eqb d c then true else has_byte c s'
  end.

End GoStrings.
Import GoStrings.

(* ===================================================================== *)
(** ** Data model *)
(* ===================================================================== *)

(** [type urlBase struct { scheme, host string }] *)
Record urlBase : Type := mk_urlBase { scheme : string; host : string }.

(** [type resource struct { urlBase; path string }] *)
Record resource : Type := mk_resource { base : urlBase; path : string }.

(** [type urlStrategy struct { backup, boot urlBase }] *)
Record urlStrategy : Type := mk_urlStrategy { backup : urlBase; boot : urlBase }.

(** [type QcdnStrategy struct { Backup, Boot string }] *)
Record QcdnStrategy : Type := mk_QcdnStrategy { Backup : string; Boot : string }.

(** The zero values returned by a bare [return] with named results. *)
Definition zero_urlBase : urlBase := mk_urlBase "" "".
Definition zero_resource : resource := mk_resource zero_urlBase "".

#[global] Instance urlBase_eq_dec : EqDecision urlBase.
Proof. solve_decision. Defined.

#[global] Instance resource_eq_dec : EqDecision resource.
Proof. solve_decision. Defined.

#[global] Instance urlBase_countable : Countable urlBase.
Proof.
  refine (inj_countable' (fun b => (scheme b, host b))
                         (fun p => mk_urlBase (fst p) (snd p)) _).
  intros []; reflexivity.
Defined.

#[global] Instance resource_countable : Countable resource.
Proof.
  refine (inj_countable' (fun r => (base r, path r))
                         (fun p => mk_resource (fst p) (snd p)) _).
  intros []; reflexivity.
Defined.

(* ===================================================================== *)
(** ** The path codec: [makeProxyPath] and [parseProxyPath] *)
(* ===================================================================== *)

(** [return "/" + scheme + "," + host + path] *)
Definition makeProxyPath (scheme host path : string) : string :=
  "/" +:+ scheme +:+ "," +:+ host +:+ path.

(** [parseProxyPath]: [proxyPath[1:]] panics on the empty string; the two
    bare [return]s give the zero resource and [ok = false]. *)
Definition parseProxyPath (proxyPath : string) : go_result (resource * bool) :=
  match slice_from 1 proxyPath with
  | None => Panic "slice bounds out of range"
  | Some tail =>
      let parts := SplitN tail "/" 2 in
      if negb (Nat.eqb (List.length parts) 2) then Ret (zero_resource, false)
      else
        let schemeAndHost := SplitN (nth 0 parts "") "," 2 in
        if negb (Nat.eqb (List.length schemeAndHost) 2)
        then Ret (zero_resource, false)
        else
          let urlBase_ := mk_urlBase (nth 0 schemeAndHost "")
                                     (nth 1 schemeAndHost "") in
          Ret (mk_resource urlBase_ ("/" +:+ nth 1 parts ""), true)
  end.

(* ===================================================================== *)
(** ** [net/url] and [net/http]: what the proxy uses of them *)
(* ===================================================================== *)

(** [url.URL], with the fields the package reads or writes and the two
    that [MakeVodURL] carries over to the URL it returns. *)
Record URL : Type := mk_URL {
  Scheme : string;
  Host : string;
  Path : string;
  RawQuery : string;
  Fragment : string
}.

Definition set_Path (u : URL) (v : string) : URL :=
  mk_URL (Scheme u) (Host u) v (RawQuery u) (Fragment u).
Definition set_Scheme (u : URL) (v : string) : URL :=
  mk_URL v (Host u) (Path u) (RawQuery u) (Fragment u).
Definition set_Host (u : URL) (v : string) : URL :=
  mk_URL (Scheme u) v (Path u) (RawQuery u) (Fragment u).

(** [url.Parse] and [URL.String] belong to the Go standard library;
    the package is verified against any implementation of them. *)
Class NetURL : Type := {
  url_Parse : string -> option URL;   (* [None]: [err != nil] *)
  url_String : URL -> string
}.

(** [http.Request]: the target URL (the handler mutates it through the
    pointer [req.URL]), the [Host] field and [RequestURI].  Method,
    header and body are forwarded untouched and are not modelled. *)
Record Request : Type := mk_Request {
  rURL : URL;
  rHost : string;
  rRequestURI : string
}.

(** [http.Response]: status, header (a multimap, here in iteration order)
    and the body bytes. *)
Record Response : Type := mk_Response {
  StatusCode : Z;
  Header : list (string * list string);
  Body : string
}.

(** What one round trip ([c.send]) gives: an error (dial failure,
    timeout), a response the client returns as it is, or a response that
    [redirectBehavior] says to follow, with the URL its [Location]
    resolves to. *)
Inductive hop : Type :=
| Failed
| Final (resp : Response)
| Redirect (resp : Response) (loc : URL).

(** The upstream world during one handler invocation: the answer to a
    request may depend on the requests already sent. *)
Definition network : Type := list Request -> Request -> hop.

(** The verdict of a [CheckRedirect] function: [nil], the sentinel
    [http.ErrUseLastResponse], or another error. *)
Inductive verdict : Type :=
| Follow
| UseLastResponse
| Refuse (err : string).

(** A [CheckRedirect] function [func(req, via) error].  The closure built
    by [handle] assigns the captured variable [last]; the captured
    variable is passed in and out. *)
Definition check_fn : Type :=
  Request -> list Request -> option Request -> verdict * option Request.

(** [http.Client]: [Timeout] in nanoseconds and the redirect policy
    ([None] is the nil func). *)
Record Client : Type := mk_Client {
  Timeout : Z;
  CheckRedirect : option check_fn
}.

(** [http.defaultCheckRedirect], used when [CheckRedirect] is nil. *)
Definition defaultCheckRedirect : check_fn :=
  fun _ via last =>
    if (10 <=? Z.of_nat (List.length via))
    then (Refuse "stopped after 10 redirects", last)
    else (Follow, last).

(** [Client.checkRedirect] *)
Definition checkRedirect (c : Client) : check_fn :=
  match CheckRedirect c with
  | None => defaultCheckRedirect
  | Some fn => fn
  end.

(** A policy that never says [Follow] once ten requests have been made:
    both the default policy and the handler's closure are such. *)
Definition bounded_policy (check : check_fn) : Prop :=
  forall req via last,
    (10 <= List.length via)%nat -> fst (check req via last) <> Follow.

(** The request the client builds for the next hop. *)
Definition redirect_request (u : URL) : Request := mk_Request u "" "".

(** The loop of [Client.do].  [reqs] are the requests already sent in
    this call ([via]), [req] the one to send now, [last] the variable
    captured by the policy, [sent] every request the handler has sent so
    far.  The result is Go's pair [(resp, err)], the captured variable
    and the requests this call sent, in order.  Go's loop has no bound of
    its own; [None] means that [fuel] iterations were not enough. *)
Fixpoint do_loop (fuel : nat) (check : check_fn) (net : network)
    (reqs : list Request) (req : Request) (last : option Request)
    (sent : list Request)
  : option (option Response * option string * option Request * list Request) :=
  match fuel with
  | O => None
  | S fuel' =>
      match net sent req with
      | Failed => Some (None, Some "send failed", last, [req])
      | Final resp => Some (Some resp, None, last, [req])
      | Redirect resp loc =>
          let reqs' := reqs ++ [req] in
          let req' := redirect_request loc in
          match check req' reqs' last with
          | (UseLastResponse, last') => Some (Some resp, None, last', [req])
          | (Refuse err, last') => Some (Some resp, Some err, last', [req])
          | (Follow, last') =>
              match do_loop fuel' check net reqs' req' last' (sent ++ [req]) with
              | Some (resp', err', last'', hops) =>
                  Some (resp', err', last'', req :: hops)
              | None => None
              end
          end
      end
  end.

(** [client.Do(req)] *)
Definition Client_Do (fuel : nat) (c : Client) (net : network) (req : Request)
    (last : option Request) (sent : list Request) :=
  do_loop fuel (checkRedirect c) net [] req last sent.

(** The record of one [client.Do] call made by the handler: the client
    and request it was given, the requests it sent (first hop first), the
    pair [(resp, err)] it returned and the captured [last] afterwards. *)
Record attempt : Type := mk_attempt {
  a_client : Client;
  a_req : Request;
  a_hops : list Request;
  a_resp : option Response;
  a_err : option string;
  a_last : option Request
}.

(** Every upstream request of a list of calls, in order. *)
Definition sent_of (calls : list attempt) : list Request :=
  flat_map a_hops calls.

(** What the handler does to its [http.ResponseWriter], call by call.
    [http.Error] is one event. *)
Inductive wev : Type :=
| HeaderAdd (k v : string)
| WriteHeader (code : Z)
| Write (body : string)
| HttpError (msg : string) (code : Z).

(** [copyHeader(dst, src)]: one [dst.Add(k, v)] per value. *)
Definition copyHeader (src : list (string * list string)) : list wev :=
  flat_map (fun kv => map (HeaderAdd (fst kv)) (snd kv)) src.

(* ===================================================================== *)
(** ** The proxy *)
(* ===================================================================== *)

(** [type QcdnProxy struct]: [server] is the URL of the started
    [httptest.Server] ([None] is nil), [init] whether the [sync.Once] has
    run.  The mutex guards [redirects]; it is part of the interleaving
    model below ([Module Locking]). *)
Record QcdnProxy : Type := mk_QcdnProxy {
  proxyHost : string;
  server : option string;
  init : bool;
  strategies : gmap urlBase urlStrategy;
  redirects : gmap resource resource;
  client : Client
}.

(** [type QcdnConfig struct { Timeout int }] (milliseconds) *)
Record QcdnConfig : Type := mk_QcdnConfig { conf_Timeout : Z }.

(** [time.Duration] is an [int64]: the product wraps around. *)
Definition wrap64 (z : Z) : Z :=
  (z + 2 ^ 63) mod 2 ^ 64 - 2 ^ 63.

(** [NewQcdnProxy(conf)]: a nil [conf] is the zero configuration. *)
Definition NewQcdnProxy (conf : option QcdnConfig) : QcdnProxy :=
  let conf := match conf with Some c => c | None => mk_QcdnConfig 0 end in
  mk_QcdnProxy "" None false ∅ ∅
    (mk_Client (wrap64 (conf_Timeout conf * 1000000)) None).

(** [Close]: forget the server if there is one. *)
Definition Close (p : QcdnProxy) : QcdnProxy :=
  match server p with
  | Some _ =>
      mk_QcdnProxy (proxyHost p) None (init p) (strategies p) (redirects p)
        (client p)
  | None => p
  end.

Definition set_strategies (p : QcdnProxy) (m : gmap urlBase urlStrategy)
  : QcdnProxy :=
  mk_QcdnProxy (proxyHost p) (server p) (init p) m (redirects p) (client p).

Definition set_redirects (p : QcdnProxy) (m : gmap resource resource)
  : QcdnProxy :=
  mk_QcdnProxy (proxyHost p) (server p) (init p) (strategies p) m (client p).

(** The string parses to a URL with a non-empty path. *)
Definition carries_path `{NetURL} (u : string) : Prop :=
  exists url, url_Parse u = Some url /\ Path url <> "".

(** [urlBaseOf]: panics when the string does not parse or has a path. *)
Definition urlBaseOf `{NetURL} (urlBase_ : string) : go_result urlBase :=
  match url_Parse urlBase_ with
  | None => Panic "invalid urlBase"
  | Some url =>
      if negb (String.eqb (Path url) "") then Panic "invalid urlBase"
      else Ret (mk_urlBase (Scheme url) (Host url))
  end.

(** [SetStrategy(urlBase_, s)]: [s] is a pointer ([None] is nil).  The
    value is how the call ends and the proxy it leaves.  Go evaluates
    the operands of the map assignment, the two [urlBaseOf] calls among
    them, before it stores. *)
Definition SetStrategy `{NetURL} (p : QcdnProxy) (urlBase_ : string)
    (s : option QcdnStrategy) : go_result unit * QcdnProxy :=
  match urlBaseOf urlBase_ with
  | Panic msg => (Panic msg, p)
  | Ret urlBase =>
      match s with
      | None => (Panic "nil pointer dereference", p)
      | Some s =>
          match urlBaseOf (Backup s) with
          | Panic msg => (Panic msg, p)
          | Ret backup_ =>
              match urlBaseOf (Boot s) with
              | Panic msg => (Panic msg, p)
              | Ret boot_ =>
                  (Ret tt,
                   set_strategies p
                     (<[urlBase := mk_urlStrategy backup_ boot_]>
                        (strategies p)))
              end
          end
      end
  end.

(** [getProxyHost]: the first call starts the server; [srvURL] is the
    URL [httptest] gives it. *)
Definition getProxyHost (srvURL : string) (p : QcdnProxy)
  : string * QcdnProxy :=
  if init p then (proxyHost p, p)
  else
    let ph := TrimPrefix srvURL "http://" in
    (ph, mk_QcdnProxy ph (Some srvURL) true (strategies p) (redirects p)
           (client p)).

(** [MakeVodURL(urlVod, bootLen)] *)
Definition MakeVodURL `{NetURL} (srvURL : string) (p : QcdnProxy)
    (urlVod : string) (bootLen : Z) : string * QcdnProxy :=
  match url_Parse urlVod with
  | None => (urlVod, p)
  | Some url =>
      match strategies p !! mk_urlBase (Scheme url) (Host url) with
      | None => (urlVod, p)
      | Some _ =>
          let url := set_Path url
                       (makeProxyPath (Scheme url) (Host url) (Path url)) in
          let url := set_Scheme url "http" in
          let '(ph, p') := getProxyHost srvURL p in
          let url := set_Host url ph in
          (url_String url, p')
      end
  end.

(** [redirectOf(uri)]: the map lookup, missing keys give the zero value. *)
Definition redirectOf (p : QcdnProxy) (uri : resource) : resource * bool :=
  match redirects p !! uri with
  | Some ret => (ret, true)
  | None => (zero_resource, false)
  end.

(** [setRedirect(uri, to)]: [p.redirects[uri] = to]. *)
Definition setRedirect (p : QcdnProxy) (uri to : resource) : QcdnProxy :=
  set_redirects p (<[uri := to]> (redirects p)).

(* ===================================================================== *)
(** ** The request handler *)
(* ===================================================================== *)

(** The state one handler invocation works on: the proxy, what has been
    done to the response writer, the upstream calls made, and the lines
    [setRedirect: uri to] that [setRedirect] has printed to the log. *)
Record hst : Type := mk_hst {
  h_proxy : QcdnProxy;
  h_w : list wev;
  h_calls : list attempt;
  h_log : list (resource * resource)
}.

(** How a handler computation ends: normally, by a panic, or with the
    redirect loop out of fuel. *)
Inductive outcome (A : Type) : Type :=
| Done (a : A) (s : hst)
| Crashed (msg : string) (s : hst)
| OutOfFuel.
Arguments Done {A} a s.
Arguments Crashed {A} msg s.
Arguments OutOfFuel {A}.

Definition H (A : Type) : Type := hst -> outcome A.

Definition retH {A} (a : A) : H A := fun s => Done a s.

Definition bindH {A B} (m : H A) (k : A -> H B) : H B :=
  fun s =>
    match m s with
    | Done a s' => k a s'
    | Crashed msg s' => Crashed msg s'
    | OutOfFuel => OutOfFuel
    end.

#[global] Instance H_ret : MRet H := @retH.
#[global] Instance H_bind : MBind H := fun A B k m => bindH m k.

(** A call that may panic. *)
Definition liftH {A} (r : go_result A) : H A :=
  fun s => match r with Ret a => Done a s | Panic msg => Crashed msg s end.

Definition get_proxy : H QcdnProxy := fun s => Done (h_proxy s) s.

(** Calls on the response writer. *)
Definition emit (evs : list wev) : H unit :=
  fun s => Done tt (mk_hst (h_proxy s) (h_w s ++ evs) (h_calls s) (h_log s)).

(** [http.Error(w, msg, code)] *)
Definition http_Error (msg : string) (code : Z) : H unit :=
  emit [HttpError msg code].

(** [p.redirectOf(uri)] and [p.setRedirect(uri, to)] on the handler's
    proxy; [setRedirect] first prints its line to the log. *)
Definition h_redirectOf (uri : resource) : H (resource * bool) :=
  fun s => Done (redirectOf (h_proxy s) uri) s.

Definition h_setRedirect (uri to : resource) : H unit :=
  fun s =>
    Done tt (mk_hst (setRedirect (h_proxy s) uri to) (h_w s) (h_calls s)
               (h_log s ++ [(uri, to)])).

(** [client.Do(req)] inside a handler: the call is recorded; the value
    is Go's [(resp, err)] and the captured [last]. *)
Definition h_Do (fuel : nat) (c : Client) (net : network) (req : Request)
    (last : option Request)
  : H (option Response * option string * option Request) :=
  fun s =>
    match Client_Do fuel c net req last (sent_of (h_calls s)) with
    | None => OutOfFuel
    | Some (resp, err, last', hops) =>
        Done (resp, err, last')
          (mk_hst (h_proxy s) (h_w s)
             (h_calls s ++ [mk_attempt c req hops resp err last']) (h_log s))
    end.

(** [serveRequest(client, w, req)]: [true] when a response came back with
    [resp.StatusCode/100 != 5], which is then copied to [w].  The second
    component is the captured [last] after the call. *)
Definition serveRequest (fuel : nat) (c : Client) (net : network)
    (req : Request) (last : option Request) : H (bool * option Request) :=
  '(resp, err, last') ← h_Do fuel c net req last;
   match err, resp with
   | None, Some resp =>
       if negb (Z.quot (StatusCode resp) 100 =? 5) then
         emit (copyHeader (Header resp)
               ++ [WriteHeader (StatusCode resp); Write (Body resp)]);;
         retH (true, last')
       else retH (false, last')
   | _, _ => retH (false, last')
   end.

(** The three assignments [url.Path = ..; url.Scheme = ..; url.Host = ..]
    followed by [req.Host = url.Host]. *)
Definition retarget (req : Request) (path scheme host : string) : Request :=
  let url := set_Host (set_Scheme (set_Path (rURL req) path) scheme) host in
  mk_Request url (Host url) (rRequestURI req).

(** [req.RequestURI = ""] *)
Definition clear_RequestURI (req : Request) : Request :=
  mk_Request (rURL req) (rHost req) "".

(** The [CheckRedirect] closure that [handle] installs on a cache miss. *)
Definition handle_CheckRedirect : check_fn :=
  fun req via last =>
    if (10 <=? Z.of_nat (List.length via))
    then (Refuse "stopped after 10 redirects", last)
    else (Follow, Some req).

(** [client := p.client; client.CheckRedirect = func ...] *)
Definition with_CheckRedirect (c : Client) (fn : check_fn) : Client :=
  mk_Client (Timeout c) (Some fn).

(** The client and the request of the first attempt: the proxy's client
    and the cached target on a hit, the recording client and the decoded
    target on a miss. *)
Definition first_target (p : QcdnProxy) (req : Request) (uri : resource)
  : Client * Request :=
  match redirects p !! uri with
  | Some to =>
      (client p,
       clear_RequestURI
         (retarget req (path to) (scheme (base to)) (host (base to))))
  | None =>
      (with_CheckRedirect (client p) handle_CheckRedirect,
       clear_RequestURI
         (retarget req (path uri) (scheme (base uri)) (host (base uri))))
  end.

(** What [serveRequest] writes for a response it accepts. *)
Definition stream (resp : Response) : list wev :=
  copyHeader (Header resp) ++ [WriteHeader (StatusCode resp); Write (Body resp)].

(** The first [n] requests of the chain that starts at [req] are all
    answered by a redirect to follow. *)
Fixpoint redirect_chain (n : nat) (net : network) (sent : list Request)
    (req : Request) : bool :=
  match n with
  | O => true
  | S k =>
      match net sent req with
      | Redirect _ loc =>
          redirect_chain k net (sent ++ [req]) (redirect_request loc)
      | _ => false
      end
  end.

(** The first attempt of [handle], after decoding: the cached target on a
    hit, the decoded target with redirect recording on a miss.  The value
    is whether the handler returns here, and the request as mutated. *)
Definition first_attempt (fuel : nat) (net : network) (req : Request)
    (uri : resource) : H (bool * Request) :=
  '(uriRedirect, ok) ← h_redirectOf uri;
   p ← get_proxy;
   if ok : bool then
     let req := retarget req (path uriRedirect) (scheme (base uriRedirect))
                  (host (base uriRedirect)) in
     let req := clear_RequestURI req in
     '(served, _) ← serveRequest fuel (client p) net req None;
     retH (served, req)
   else
     let req := retarget req (path uri) (scheme (base uri)) (host (base uri)) in
     let req := clear_RequestURI req in
     let client_ := with_CheckRedirect (client p) handle_CheckRedirect in
     '(served, last) ← serveRequest fuel client_ net req None;
     match served, last with
     | true, Some last =>
         let lastURL := rURL last in
         let urlBase_ := mk_urlBase (Scheme lastURL) (Host lastURL) in
         h_setRedirect uri (mk_resource urlBase_ (Path lastURL));;
         retH (true, req)
     | _, _ => retH (false, req)
     end.

(** The rest of [handle]: strategy lookup and the backup attempt. *)
Definition backup_stage (fuel : nat) (net : network) (req : Request)
    (uri : resource) : H unit :=
  p ← get_proxy;
   match strategies p !! base uri with
   | None => http_Error "url strategy not found" 500
   | Some s =>
       stop ←
         (if negb (String.eqb (Host (rURL req)) (host (backup s))) then
            let req := retarget req (path uri) (scheme (backup s))
                         (host (backup s)) in
            '(served, _) ← serveRequest fuel (client p) net req None;
            if served : bool then
              h_setRedirect uri (mk_resource (backup s) (path uri));;
              retH true
            else retH false
          else retH false);
       if stop : bool then retH tt
       else http_Error "both main and backup server fail" 500
   end.

(** [handle(w, req)] *)
Definition handle (fuel : nat) (net : network) (req : Request) : H unit :=
  '(uri, ok) ← liftH (parseProxyPath (Path (rURL req)));
   if negb ok then http_Error "invalid proxy path" 500
   else
     '(stop, req) ← first_attempt fuel net req uri;
     if stop : bool then retH tt
     else backup_stage fuel net req uri.

(** One handler invocation on proxy [p]: a fresh response writer, no
    call made and nothing printed yet. *)
Definition run_handle (fuel : nat) (p : QcdnProxy) (net : network)
    (req : Request) : outcome unit :=
  handle fuel net req (mk_hst p [] [] []).

(** An incoming request for [path] on the proxy's endpoint. *)
Definition incoming (path : string) : Request :=
  mk_Request (mk_URL "" "" path "" "") "proxy.local" path.

(** The resource a URL names. *)
Definition resource_of (u : URL) : resource :=
  mk_resource (mk_urlBase (Scheme u) (Host u)) (Path u).

(* ===================================================================== *)
(** ** The proxy as a state machine *)
(* ===================================================================== *)

(** One handler invocation: the proxy it saw when it started, its
    request, and the state it ended in. *)
Record handled : Type := mk_handled {
  hd_before : QcdnProxy;
  hd_req : Request;
  hd_end : hst
}.

(** The [setRedirect] calls a handler has printed, made on a proxy. *)
Definition replay (lines : list (resource * resource)) (p : QcdnProxy)
  : QcdnProxy :=
  fold_left (fun q line => setRedirect q (fst line) (snd line)) lines p.

Fixpoint remove_at {A} (i : nat) (l : list A) : list A :=
  match l, i with
  | [], _ => []
  | _ :: l', O => l'
  | x :: l', S i' => x :: remove_at i' l'
  end.

(** A proxy that serves: the proxy itself, the handler invocations under
    way and those that have returned. *)
Record pstate : Type := mk_pstate {
  st_proxy : QcdnProxy;
  st_running : list handled;
  st_history : list handled
}.

(** The operations on a serving proxy.  Handlers run concurrently: a
    handler starts ([OpServe]), looks the cache up and goes on from what
    it saw; its [setRedirect], if it makes one, reaches the shared cache
    when the handler returns ([OpCommit]), after whatever the other
    handlers have written in between. *)
Inductive op : Type :=
| OpSetStrategy (urlBase_ : string) (s : option QcdnStrategy)
| OpMakeVodURL (srvURL urlVod : string) (bootLen : Z)
| OpServe (fuel : nat) (net : network) (req : Request)
| OpCommit (i : nat)
| OpClose.

(** One operation.  A panic of the handler is recovered by [net/http].
    A handler run that is out of fuel is no transition. *)
Definition apply_op `{NetURL} (o : op) (st : pstate) : option pstate :=
  let p := st_proxy st in
  match o with
  | OpSetStrategy u s =>
      Some (mk_pstate (snd (SetStrategy p u s)) (st_running st) (st_history st))
  | OpMakeVodURL srv u n =>
      Some (mk_pstate (snd (MakeVodURL srv p u n)) (st_running st)
              (st_history st))
  | OpServe fuel net req =>
      match run_handle fuel p net req with
      | Done _ s' | Crashed _ s' =>
          Some (mk_pstate p (st_running st ++ [mk_handled p req s'])
                  (st_history st))
      | OutOfFuel => None
      end
  | OpCommit i =>
      match st_running st !! i with
      | Some e =>
          Some (mk_pstate (replay (h_log (hd_end e)) p)
                  (remove_at i (st_running st)) (st_history st ++ [e]))
      | None => None
      end
  | OpClose => Some (mk_pstate (Close p) (st_running st) (st_history st))
  end.

Fixpoint run_ops `{NetURL} (ops : list op) (st : pstate) : option pstate :=
  match ops with
  | [] => Some st
  | o :: ops' =>
      match apply_op o st with
      | Some st' => run_ops ops' st'
      | None => None
      end
  end.

(** The states a proxy made by [NewQcdnProxy] can be in. *)
Definition reachable `{NetURL} (st : pstate) : Prop :=
  exists conf ops,
    run_ops ops (mk_pstate (NewQcdnProxy conf) [] []) = Some st.

(** An upstream call that came back with a response that is not a 5xx. *)
Definition non5xx (a : attempt) : Prop :=
  a_err a = None /\
  exists resp, a_resp a = Some resp /\ Z.quot (StatusCode resp) 100 <> 5.

(** The call followed at least one redirect. *)
Definition followed_redirect (a : attempt) : Prop :=
  (1 < List.length (a_hops a))%nat.

(** The call was made to the backup origin of [uri], with [uri]'s path. *)
Definition to_backup (p : QcdnProxy) (uri : resource) (a : attempt) : Prop :=
  exists s, strategies p !! base uri = Some s /\
            resource_of (rURL (a_req a)) = mk_resource (backup s) (path uri).

(** Invocation [e] was for [uri] and completed a successful fetch that
    followed a redirect or went to the backup origin. *)
Definition justifies (uri : resource) (e : handled) : Prop :=
  parseProxyPath (Path (rURL (hd_req e))) = Ret (uri, true) /\
  exists a, In a (h_calls (hd_end e)) /\ non5xx a /\
            (followed_redirect a \/ to_backup (hd_before e) uri a).

(** What a handler invocation has printed: nothing, or the one line of a
    [setRedirect] that the invocation justifies. *)
Definition log_justified (e : handled) : Prop :=
  h_log (hd_end e) = [] \/
  exists uri to, h_log (hd_end e) = [(uri, to)] /\ justifies uri e.

(** The invariant: every key of the cache is justified by an invocation
    that has returned, and every running invocation has a justified
    log. *)
Definition provenance_inv (st : pstate) : Prop :=
  (forall k, is_Some (redirects (st_proxy st) !! k) ->
             exists e, In e (st_history st) /\ justifies k e) /\
  (forall e, In e (st_running st) -> log_justified e).

(* ===================================================================== *)
(** ** The mutex around the redirect map: an interleaving model *)
(* ===================================================================== *)

Module Locking.

(** The steps of [redirectOf] and [setRedirect].  An access to the map
    takes time: it begins ([AccessBegin]) and it ends, with the read or
    the write done ([ReadEnd], [WriteEnd]). *)
Inductive instr : Type :=
| Println
| Lock
| Unlock
| AccessBegin
| ReadEnd (uri : resource)
| WriteEnd (uri to : resource).

(** [p.mutex.Lock(); ret, ok = p.redirects[uri]; p.mutex.Unlock()] *)
Definition redirectOf_code (uri : resource) : list instr :=
  [Lock; AccessBegin; ReadEnd uri; Unlock].

(** [log.Println(..); p.mutex.Lock(); p.redirects[uri] = to;
    p.mutex.Unlock()] *)
Definition setRedirect_code (uri to : resource) : list instr :=
  [Println; Lock; AccessBegin; WriteEnd uri to; Unlock].

Inductive call : Type :=
| CallRedirectOf (uri : resource)
| CallSetRedirect (uri to : resource).

Definition call_code (c : call) : list instr :=
  match c with
  | CallRedirectOf uri => redirectOf_code uri
  | CallSetRedirect uri to => setRedirect_code uri to
  end.

(** A goroutine that makes the calls [cs] in order. *)
Definition program (cs : list call) : list instr := flat_map call_code cs.

(** The shared state: the mutex, the number of map accesses under way,
    whether two accesses have ever overlapped, the map, and what each
    goroutine has left to run. *)
Record cstate : Type := mk_cstate {
  locked : bool;
  accessing : nat;
  overlapped : bool;
  cmap : gmap resource resource;
  pool : list (list instr)
}.

(** Goroutine [t] runs its next step.  [Lock] waits while the mutex is
    held; [Unlock] of a free mutex is a fatal error; an access that
    begins while another is under way is an overlap. *)
Definition exec (t : nat) (st : cstate) : option cstate :=
  match pool st !! t with
  | Some (i :: rest) =>
      let pool' := <[t := rest]> (pool st) in
      match i with
      | Println =>
          Some (mk_cstate (locked st) (accessing st) (overlapped st) (cmap st)
                  pool')
      | Lock =>
          if locked st then None
          else Some (mk_cstate true (accessing st) (overlapped st) (cmap st)
                       pool')
      | Unlock =>
          if locked st
          then Some (mk_cstate false (accessing st) (overlapped st) (cmap st)
                       pool')
          else None
      | AccessBegin =>
          Some (mk_cstate (locked st) (S (accessing st))
                  (overlapped st || negb (Nat.eqb (accessing st) 0))
                  (cmap st) pool')
      | ReadEnd _ =>
          Some (mk_cstate (locked st) (Nat.pred (accessing st)) (overlapped st)
                  (cmap st) pool')
      | WriteEnd k v =>
          Some (mk_cstate (locked st) (Nat.pred (accessing st)) (overlapped st)
                  (<[k := v]> (cmap st)) pool')
      end
  | _ => None
  end.

(** A schedule: which goroutine steps next. *)
Fixpoint run (sched : list nat) (st : cstate) : option cstate :=
  match sched with
  | [] => Some st
  | t :: sched' =>
      match exec t st with
      | Some st' => run sched' st'
      | None => None
      end
  end.

(** The goroutine is between its [Lock] and the end of its [Unlock]. *)
Definition in_critical (c : list instr) : bool :=
  match c with
  | AccessBegin :: _ | ReadEnd _ :: _ | WriteEnd _ _ :: _ | Unlock :: _ => true
  | _ => false
  end.

(** The goroutine has begun a map access and not ended it. *)
Definition in_access (c : list instr) : bool :=
  match c with
  | ReadEnd _ :: _ | WriteEnd _ _ :: _ => true
  | _ => false
  end.

Definition start (m : gmap resource resource) (progs : list (list call))
  : cstate :=
  mk_cstate false 0 false m (map program progs).

(** The map accesses of a handler that misses the cache for [uri] and
    then resolves it to [to]. *)
Definition resolution (uri to : resource) : list call :=
  [CallRedirectOf uri; CallSetRedirect uri to].

Definition finished (st : cstate) : Prop :=
  Forall (fun c => c = []) (pool st).

(** Where a goroutine stands in its calls, and whether it holds the
    mutex there: between two calls, after the [Println] of
    [setRedirect], or inside a locked region. *)
Inductive at_point : bool -> list instr -> Prop :=
| at_idle cs : at_point false (program cs)
| at_lock_write k v cs :
    at_point false (Lock :: AccessBegin :: WriteEnd k v :: Unlock :: program cs)
| at_begin_read k cs :
    at_point true (AccessBegin :: ReadEnd k :: Unlock :: program cs)
| at_begin_write k v cs :
    at_point true (AccessBegin :: WriteEnd k v :: Unlock :: program cs)
| at_read k cs : at_point true (ReadEnd k :: Unlock :: program cs)
| at_write k v cs : at_point true (WriteEnd k v :: Unlock :: program cs)
| at_unlock cs : at_point true (Unlock :: program cs).

(** How many goroutines satisfy [f]. *)
Fixpoint count_where (f : list instr -> bool) (pl : list (list instr)) : nat :=
  match pl with
  | [] => O
  | c :: pl' => ((if f c then 1 else 0) + count_where f pl')%nat
  end.

(** The invariant of the mutex: every goroutine stands at a point of its
    calls; the mutex is held exactly when one goroutine is inside a
    locked region; the accesses under way are those of the goroutines
    inside an access; no two accesses have overlapped. *)
Definition mutex_inv (st : cstate) : Prop :=
  Forall (fun c => exists b, at_point b c) (pool st) /\
  count_where in_critical (pool st) = (if locked st then 1%nat else 0%nat) /\
  count_where in_access (pool st) = accessing st /\
  overlapped st = false.

(** The invariant of [n] racing resolutions of [uri] from the map [m]:
    goroutine [i] only runs steps of its own resolution; the entry of
    [uri] is one of the resolved values, or no goroutine has written
    yet; the other entries are those of [m]. *)
Definition race_inv (m : gmap resource resource) (uri : resource)
    (tos : list resource) (st : cstate) : Prop :=
  List.length (pool st) = List.length tos /\
  (forall i c, pool st !! i = Some c ->
     exists to, tos !! i = Some to /\
                forall ins, In ins c -> In ins (program (resolution uri to))) /\
  ((exists to, In to tos /\ cmap st !! uri = Some to) \/
   (forall i c, pool st !! i = Some c -> exists to, In (WriteEnd uri to) c)) /\
  (forall k, k <> uri -> cmap st !! k = m !! k).

End Locking.

(* ===================================================================== *)
(** ** A small [net/url] for examples *)
(* ===================================================================== *)

Module Demo.

(** Parses [scheme://host/path]; a string with a line feed does not parse
    (Go rejects control bytes). *)
Definition parse (s : string) : option URL :=
  if has_byte "010"%char s then None
  else
    match Index s "://" with
    | None => Some (mk_URL "" "" s "" "")
    | Some i =>
        let rest := drop_bytes (i + 3) s in
        match Index rest "/" with
        | None => Some (mk_URL (slice_to i s) rest "" "" "")
        | Some j =>
            Some (mk_URL (slice_to i s) (slice_to j rest) (drop_bytes j rest)
                    "" "")
        end
    end.

Definition unparse (u : URL) : string :=
  Scheme u +:+ "://" +:+ Host u +:+ Path u.

#[global] Instance demo_url : NetURL :=
  {| url_Parse := parse; url_String := unparse |}.

Definition origin_a : urlBase := mk_urlBase "http" "a".
Definition origin_b : urlBase := mk_urlBase "http" "b".
Definition origin_c : urlBase := mk_urlBase "http" "c".

(** A proxy with the strategy [http://a -> backup http://b]. *)
Definition proxy_ab : QcdnProxy :=
  set_strategies (NewQcdnProxy None)
    (<[origin_a := mk_urlStrategy origin_b zero_urlBase]> ∅).

Definition ok200 (body : string) : Response :=
  mk_Response 200 [("Content-Type", ["text/plain"])] body.

Definition found302 : Response :=
  mk_Response 302 [("Location", ["http://c/y"])] "".

(** Each origin answers 200 with its own body. *)
Definition net_all_ok : network :=
  fun _ r =>
    if String.eqb (Host (rURL r)) "a" then Final (ok200 "main")
    else if String.eqb (Host (rURL r)) "b" then Final (ok200 "backup")
    else Failed.

(** Origin [a] answers 500, origin [b] answers 200. *)
Definition net_a_down : network :=
  fun _ r =>
    if String.eqb (Host (rURL r)) "a"
    then Final (mk_Response 500 [] "fail")
    else if String.eqb (Host (rURL r)) "b" then Final (ok200 "backup")
    else Failed.

(** Origin [b] redirects to [http://c/y], which answers 200. *)
Definition net_b_redirects : network :=
  fun _ r =>
    if String.eqb (Host (rURL r)) "b"
    then Redirect found302 (mk_URL "http" "c" "/y" "" "")
    else if String.eqb (Host (rURL r)) "c" then Final (ok200 "moved")
    else Failed.

(** The state in which the handler ends for [/http,a/x] when origin [a]
    is down: the backup's answer on the writer, the backup in the cache,
    one call to each origin. *)
Definition served_by_backup : hst :=
  mk_hst
    (setRedirect proxy_ab (mk_resource origin_a "/x") (mk_resource origin_b "/x"))
    (stream (ok200 "backup"))
    [mk_attempt (mk_Client 0 (Some handle_CheckRedirect))
       (mk_Request (mk_URL "http" "a" "/x" "" "") "a" "")
       [mk_Request (mk_URL "http" "a" "/x" "" "") "a" ""]
       (Some (mk_Response 500 [] "fail")) None None;
     mk_attempt (mk_Client 0 None)
       (mk_Request (mk_URL "http" "b" "/x" "" "") "b" "")
       [mk_Request (mk_URL "http" "b" "/x" "" "") "b" ""]
       (Some (ok200 "backup")) None None]
    [(mk_resource origin_a "/x", mk_resource origin_b "/x")].

(** The request for [http://a/x] as the handler forwards it, and the
    state after [serveRequest] got a 500 for it. *)
Definition req_ax : Request :=
  mk_Request (mk_URL "http" "a" "/x" "" "") "a" "".

Definition after_failed_call : hst :=
  mk_hst proxy_ab []
    [mk_attempt (mk_Client 0 None) req_ax [req_ax]
       (Some (mk_Response 500 [] "fail")) None None] [].

(** A proxy with the strategy [http://b -> backup http://a]. *)
Definition proxy_b : QcdnProxy :=
  set_strategies (NewQcdnProxy None)
    (<[origin_b := mk_urlStrategy origin_a zero_urlBase]> ∅).

(** A proxy whose backup for [http://a] is the same host over https. *)
Definition proxy_a_https : QcdnProxy :=
  set_strategies (NewQcdnProxy None)
    (<[origin_a := mk_urlStrategy (mk_urlBase "https" "a") zero_urlBase]> ∅).

(** Origin [a] cannot be reached, origin [b] answers 503. *)
Definition net_all_down : network :=
  fun _ r =>
    if String.eqb (Host (rURL r)) "b"
    then Final (mk_Response 503 [] "busy")
    else Failed.

(** Every origin redirects to itself, for ever. *)
Definition net_loop : network :=
  fun _ r => Redirect found302 (rURL r).

End Demo.

(* ===================================================================== *)
(** ** What the handler forwards *)
(* ===================================================================== *)

(** A request as the handler hands it to the client for the incoming
    request [req]: the query and fragment of [req] are kept,
    [RequestURI] is empty and the [Host] field is the host of the
    target. *)
Definition forwarded (req : Request) (a : attempt) : Prop :=
  RawQuery (rURL (a_req a)) = RawQuery (rURL req) /\
  Fragment (rURL (a_req a)) = Fragment (rURL req) /\
  rRequestURI (a_req a) = "" /\
  rHost (a_req a) = Host (rURL (a_req a)).

(** A call on the record of the handler for [req]: it forwards [req], it
    was made with the proxy's client or with the recording client, and
    its record is what [client.Do] returned. *)
Definition made_by (fuel : nat) (p : QcdnProxy) (net : network)
    (req : Request) (a : attempt) : Prop :=
  forwarded req a /\
  (a_client a = client p \/
   a_client a = with_CheckRedirect (client p) handle_CheckRedirect) /\
  exists sent,
    Client_Do fuel (a_client a) net (a_req a) None sent
    = Some (a_resp a, a_err a, a_last a, a_hops a).

(** The proxy apart from its redirect cache. *)
Definition same_config (p q : QcdnProxy) : Prop :=
  proxyHost q = proxyHost p /\ server q = server p /\ init q = init p /\
  strategies q = strategies p /\ client q = client p.

(** The statements the goroutines of a pool have left to run. *)
Definition steps_left (st : Locking.cstate) : nat :=
  list_sum (map (@List.length Locking.instr) (Locking.pool st)).

(** The three strings of a [SetStrategy] call parse to URLs without a
    path. *)
Definition pathless `{NetURL} (u : string) (url : URL) : Prop :=
  url_Parse u = Some url /\ Path url = "".


(* ===================================================================== *)
(** ** The earlier revision of the handler *)
(* ===================================================================== *)

(** The revision of the package without the redirect cache: its
    [parseProxyPath] returns four values, its [serveRequest] calls
    [http.DefaultClient], its [handle] tries the origin and then the
    backup.  The proxy of that revision has the fields [proxyHost],
    [server], [init] and [strategies] only; the handler reads
    [strategies]. *)
Module Rev0.

(** [parseProxyPath]: the bare [return]s give three empty strings and
    [ok = false]. *)
Definition parseProxyPath (proxyPath : string)
  : go_result (string * string * string * bool) :=
  match slice_from 1 proxyPath with
  | None => Panic "slice bounds out of range"
  | Some tail =>
      let parts := SplitN tail "/" 2 in
      if negb (Nat.eqb (List.length parts) 2) then Ret ("", "", "", false)
      else
        let schemeAndHost := SplitN (nth 0 parts "") "," 2 in
        if negb (Nat.eqb (List.length schemeAndHost) 2)
        then Ret ("", "", "", false)
        else Ret (nth 0 schemeAndHost "", nth 1 schemeAndHost "",
                  "/" +:+ nth 1 parts "", true)
  end.

(** [http.DefaultClient] is [&Client{}]. *)
Definition DefaultClient : Client := mk_Client 0 None.

(** [serveRequest(w, req)] *)
Definition serveRequest (fuel : nat) (net : network) (req : Request) : H bool :=
  '(served, _) ← serveRequest fuel DefaultClient net req None;
  retH served.

(** [handle(w, req)]: the backup attempt keeps [url.Path] and is made
    whatever the backup host is. *)
Definition handle (fuel : nat) (net : network) (req : Request) : H unit :=
  '(scheme_, host_, path_, ok) ← liftH (parseProxyPath (Path (rURL req)));
  if negb ok then http_Error "invalid proxy path" 500
  else
    let req := clear_RequestURI (retarget req path_ scheme_ host_) in
    served ← serveRequest fuel net req;
    if served : bool then retH tt
    else
      p ← get_proxy;
      match strategies p !! mk_urlBase scheme_ host_ with
      | None => http_Error "url strategy not found" 500
      | Some s =>
          let req := retarget req (Path (rURL req)) (scheme (backup s))
                       (host (backup s)) in
          served ← serveRequest fuel net req;
          if served : bool then retH tt
          else http_Error "both main and backup server fail" 500
      end.

Definition run_handle (fuel : nat) (p : QcdnProxy) (net : network)
    (req : Request) : outcome unit :=
  handle fuel net req (mk_hst p [] [] []).

End Rev0.

(* ===================================================================== *)
(** * Properties *)
(* ===================================================================== *)

(** ** Strings *)

Section StringFacts.

Lemma prefix_byte_cons (c d : ascii) (s : string) :
  String.prefix (String c EmptyString) (String d s) = Ascii.eqb d c.
Proof.
  simpl. destruct (ascii_dec c d) as [->|Hne].
  - rewrite Ascii.eqb_refl. destruct s; reflexivity.
  - symmetry. apply Ascii.eqb_neq. congruence.
Qed.

Lemma append_nil (s : string) : "" +:+ s = s.
Proof. reflexivity. Qed.

Lemma append_cons (c : ascii) (a s : string) :
  String c a +:+ s = String c (a +:+ s).
Proof. reflexivity. Qed.

Lemma Index_byte_cons (c d : ascii) (s : string) :
  Index (String d s) (String c EmptyString)
  = if Ascii.eqb d c then Some O
    else option_map S (Index s (String c EmptyString)).
Proof.
  change (Index (String d s) (String c EmptyString))
    with (if String.prefix (String c EmptyString) (String d s) then Some O
          else option_map S (Index s (String c EmptyString))).
  rewrite prefix_byte_cons. reflexivity.
Qed.

Lemma has_byte_app (c : ascii) (a b : string) :
  has_byte c (a +:+ b) = has_byte c a || has_byte c b.
Proof.
  induction a as [|d a IH]; [reflexivity|].
  rewrite append_cons. cbn [has_byte].
  destruct (Ascii.eqb d c); [reflexivity | exact IH].
Qed.

Lemma Index_byte_absent (c : ascii) (s : string) :
  has_byte c s = false -> Index s (String c EmptyString) = None.
Proof.
  induction s as [|d s IH]; intros Hs; [reflexivity|].
  rewrite Index_byte_cons.
  simpl in Hs. destruct (Ascii.eqb d c); [discriminate|].
  rewrite (IH Hs). reflexivity.
Qed.

Lemma Index_byte_first (c : ascii) (a rest : string) :
  has_byte c a = false ->
  Index (a +:+ String c rest) (String c EmptyString) = Some (String.length a).
Proof.
  induction a as [|d a IH]; intros Ha.
  - rewrite append_nil, Index_byte_cons, Ascii.eqb_refl. reflexivity.
  - rewrite append_cons, Index_byte_cons.
    simpl in Ha. destruct (Ascii.eqb d c); [discriminate|].
    rewrite (IH Ha). reflexivity.
Qed.

Lemma slice_to_app (a b : string) : slice_to (String.length a) (a +:+ b) = a.
Proof.
  induction a as [|d a IH].
  - destruct b; reflexivity.
  - rewrite append_cons. cbn [String.length slice_to]. rewrite IH. reflexivity.
Qed.

Lemma drop_bytes_app (a : string) (c : ascii) (rest : string) :
  drop_bytes (String.length a + 1) (a +:+ String c rest) = rest.
Proof.
  induction a as [|d a IH].
  - destruct rest; reflexivity.
  - rewrite append_cons. cbn [String.length Nat.add drop_bytes]. exact IH.
Qed.

Lemma length_app_byte (a : string) (c : ascii) (rest : string) :
  String.length (a +:+ String c rest) = S (String.length (a +:+ rest)).
Proof.
  induction a as [|d a IH]; [reflexivity|].
  rewrite !append_cons. cbn [String.length]. rewrite IH. reflexivity.
Qed.

(** Splitting in two at the first separator byte. *)
Lemma SplitN_two_cut (c : ascii) (a rest : string) :
  has_byte c a = false ->
  SplitN (a +:+ String c rest) (String c EmptyString) 2 = [a; rest].
Proof.
  intros Ha. unfold SplitN. rewrite length_app_byte.
  cbn [Nat.min genSplit]. rewrite (Index_byte_first c a rest Ha).
  rewrite slice_to_app. cbn [String.length].
  rewrite drop_bytes_app. reflexivity.
Qed.

(** No separator byte: one piece. *)
Lemma SplitN_two_whole (c : ascii) (s : string) :
  has_byte c s = false -> SplitN s (String c EmptyString) 2 = [s].
Proof.
  intros Hs. unfold SplitN.
  destruct (Nat.min 1 (String.length s)); cbn [genSplit]; [reflexivity|].
  rewrite (Index_byte_absent c s Hs). reflexivity.
Qed.

Lemma append_assoc (a b c : string) : (a +:+ b) +:+ c = a +:+ (b +:+ c).
Proof.
  induction a as [|d a IH]; [reflexivity|].
  rewrite !append_cons, IH. reflexivity.
Qed.

End StringFacts.

(** ** The path codec *)

Example parseProxyPath_video :
  parseProxyPath "/https,origin.example/video.mp4"
  = Ret (mk_resource (mk_urlBase "https" "origin.example") "/video.mp4", true).
Proof. reflexivity. Qed.

Example parseProxyPath_no_slash :
  parseProxyPath "/https,origin.example" = Ret (zero_resource, false).
Proof. reflexivity. Qed.

Example parseProxyPath_no_comma :
  parseProxyPath "/origin.example/video.mp4" = Ret (zero_resource, false).
Proof. reflexivity. Qed.

(** The empty path is not rejected: the slice expression panics. *)
Example parseProxyPath_empty :
  parseProxyPath "" = Panic "slice bounds out of range".
Proof. reflexivity. Qed.

Example parseProxyPath_double_slash :
  parseProxyPath (makeProxyPath "http" "a" "//x")
  = Ret (mk_resource (mk_urlBase "http" "a") "//x", true).
Proof. reflexivity. Qed.

(** A path with a first byte and no further ['/'] does not decode. *)
Lemma parseProxyPath_no_second_slash (c : ascii) (rest : string) :
  has_byte "/" rest = false ->
  parseProxyPath (String c rest) = Ret (zero_resource, false).
Proof.
  intros Hr. unfold parseProxyPath. cbn [slice_from].
  rewrite (SplitN_two_whole "/" rest Hr). reflexivity.
Qed.

(** A path whose first segment has no [','] does not decode. *)
Lemma parseProxyPath_no_comma_in_segment (c : ascii) (seg tail : string) :
  has_byte "/" seg = false ->
  has_byte "," seg = false ->
  parseProxyPath (String c (seg +:+ String "/" tail)) = Ret (zero_resource, false).
Proof.
  intros Hs Hc. unfold parseProxyPath. cbn [slice_from].
  rewrite (SplitN_two_cut "/" seg tail Hs). cbn [List.length Nat.eqb negb nth].
  rewrite (SplitN_two_whole "," seg Hc). reflexivity.
Qed.

(** C2: decoding the encoding of a resource gives the resource back, with
    [ok = true], whenever the path begins with ['/'] (and not with ["//"])
    and neither scheme nor host contains [','] or ['/']. *)
Theorem parseProxyPath_makeProxyPath (sch hst pth : string) :
  String.prefix "/" pth = true ->
  String.prefix "//" pth = false ->
  has_byte "," sch = false -> has_byte "/" sch = false ->
  has_byte "," hst = false -> has_byte "/" hst = false ->
  parseProxyPath (makeProxyPath sch hst pth)
  = Ret (mk_resource (mk_urlBase sch hst) pth, true).
Proof.
  intros Hp _ Hcs Hss _ Hsh.
  destruct pth as [|c rest]; [discriminate|].
  rewrite prefix_byte_cons in Hp. apply Ascii.eqb_eq in Hp. subst c.
  unfold makeProxyPath, parseProxyPath.
  rewrite append_cons, append_nil. cbn [slice_from].
  replace (sch +:+ "," +:+ hst +:+ String "/" rest)
    with ((sch +:+ String "," hst) +:+ String "/" rest)
    by (rewrite append_assoc; reflexivity).
  rewrite SplitN_two_cut.
  2:{ rewrite has_byte_app. cbn [has_byte]. rewrite Hss, Hsh. reflexivity. }
  cbn [List.length Nat.eqb negb nth].
  rewrite (SplitN_two_cut "," sch hst Hcs).
  reflexivity.
Qed.

Lemma parseProxyPath_makeProxyPath_witness :
  parseProxyPath (makeProxyPath "https" "origin.example" "/video.mp4")
  = Ret (mk_resource (mk_urlBase "https" "origin.example") "/video.mp4", true).
Proof.
  apply (parseProxyPath_makeProxyPath "https" "origin.example" "/video.mp4");
    reflexivity.
Defined.

(** ** Requests that do not decode *)

(** When [parseProxyPath] answers [ok = false], the handler writes the
    error and does nothing else. *)
Lemma handle_undecodable (fuel : nat) (p : QcdnProxy) (net : network)
    (req : Request) (uri : resource) :
  parseProxyPath (Path (rURL req)) = Ret (uri, false) ->
  run_handle fuel p net req
  = Done tt (mk_hst p [HttpError "invalid proxy path" 500] [] []).
Proof.
  intros Hparse. unfold run_handle, handle, mbind, H_bind, bindH, liftH.
  rewrite Hparse. reflexivity.
Qed.

(** X20: a request whose path has a first byte and, after it, no ['/'],
    or no [','] before its first ['/'], is answered with the error
    "invalid proxy path" (status 500); no upstream call is made and the
    proxy is left as it was. *)
Theorem handle_rejects_undecodable_path (fuel : nat) (p : QcdnProxy)
    (net : network) (req : Request) (c : ascii) (rest : string) :
  Path (rURL req) = String c rest ->
  (has_byte "/" rest = false \/
   exists seg tail, rest = seg +:+ String "/" tail /\
                    has_byte "/" seg = false /\ has_byte "," seg = false) ->
  run_handle fuel p net req
  = Done tt (mk_hst p [HttpError "invalid proxy path" 500] [] []).
Proof.
  intros Hpath [Hno | (seg & tail & -> & Hs & Hc)];
    apply handle_undecodable with (uri := zero_resource); rewrite Hpath.
  - apply parseProxyPath_no_second_slash; assumption.
  - apply parseProxyPath_no_comma_in_segment; assumption.
Qed.

Lemma handle_rejects_undecodable_path_witness :
  run_handle 11 Demo.proxy_ab Demo.net_all_ok (incoming "/http,a")
  = Done tt (mk_hst Demo.proxy_ab [HttpError "invalid proxy path" 500] [] [])
  /\ run_handle 11 Demo.proxy_ab Demo.net_all_ok (incoming "/a/video.mp4")
     = Done tt (mk_hst Demo.proxy_ab [HttpError "invalid proxy path" 500] [] []).
Proof.
  split.
  - apply (handle_rejects_undecodable_path 11 Demo.proxy_ab Demo.net_all_ok
             (incoming "/http,a") "/" "http,a"); [reflexivity|].
    left. reflexivity.
  - apply (handle_rejects_undecodable_path 11 Demo.proxy_ab Demo.net_all_ok
             (incoming "/a/video.mp4") "/" "a/video.mp4"); [reflexivity|].
    right. exists "a", "video.mp4". split; [|split]; reflexivity.
Defined.

(** C7: the empty path cannot be decoded, it has no ['/'] at all, and
    it does not reach the rejection: [proxyPath[1:]] panics in
    [parseProxyPath] before [ok] is tested.  For every proxy, upstream
    world and request with [URL.Path] empty the handler ends by that
    panic with nothing written to the response writer, so no server
    error is sent, it never returns normally, and no upstream call is
    made. *)
Theorem handle_empty_path_panics (fuel : nat) (p : QcdnProxy) (net : network)
    (u : URL) (h ruri : string) :
  let req := mk_Request (set_Path u "") h ruri in
  has_byte "/" (Path (rURL req)) = false /\
  parseProxyPath (Path (rURL req)) = Panic "slice bounds out of range" /\
  run_handle fuel p net req
  = Crashed "slice bounds out of range" (mk_hst p [] [] []) /\
  forall s', run_handle fuel p net req <> Done tt s'.
Proof.
  cbv zeta. split; [reflexivity|]. split; [reflexivity|].
  split; [reflexivity | discriminate].
Qed.

(** ** The strategy table and [MakeVodURL] *)

Section Strategy.
Context `{NetURL}.

Lemma urlBaseOf_carries_path (u : string) :
  carries_path u -> urlBaseOf u = Panic "invalid urlBase".
Proof.
  intros (url & Hp & Hne). unfold urlBaseOf. rewrite Hp.
  destruct (String.eqb_spec (Path url) ""); [contradiction | reflexivity].
Qed.

(** [urlBaseOf] either returns or panics with "invalid urlBase". *)
Lemma urlBaseOf_cases (u : string) :
  (exists b, urlBaseOf u = Ret b) \/ urlBaseOf u = Panic "invalid urlBase".
Proof.
  unfold urlBaseOf. destruct (url_Parse u) as [url|]; [|right; reflexivity].
  destruct (negb (String.eqb (Path url) "")); [right | left; eexists];
    reflexivity.
Qed.

(** C8: when the origin URL, the backup URL or the boot URL has a
    non-empty path, [SetStrategy] panics with "invalid urlBase" and
    leaves the proxy, its strategy table included, as it was. *)
Theorem SetStrategy_path_panics (p : QcdnProxy) (urlBase_ : string)
    (s : QcdnStrategy) :
  carries_path urlBase_ \/ carries_path (Backup s) \/ carries_path (Boot s) ->
  SetStrategy p urlBase_ (Some s) = (Panic "invalid urlBase", p).
Proof.
  intros Hc. unfold SetStrategy.
  destruct (urlBaseOf_cases urlBase_) as [[b0 E0] | E0]; rewrite E0;
    [|reflexivity].
  destruct (urlBaseOf_cases (Backup s)) as [[b1 E1] | E1]; rewrite E1;
    [|reflexivity].
  destruct (urlBaseOf_cases (Boot s)) as [[b2 E2] | E2]; rewrite E2;
    [|reflexivity].
  destruct Hc as [Hc | [Hc | Hc]]; apply urlBaseOf_carries_path in Hc;
    congruence.
Qed.

(** C5: [MakeVodURL] returns its argument, and leaves the proxy alone,
    when the argument does not parse or when no strategy is stored for
    its scheme and host. *)
Theorem MakeVodURL_passthrough (srvURL : string) (p : QcdnProxy)
    (urlVod : string) (bootLen : Z) :
  url_Parse urlVod = None \/
  (exists url, url_Parse urlVod = Some url /\
               strategies p !! mk_urlBase (Scheme url) (Host url) = None) ->
  MakeVodURL srvURL p urlVod bootLen = (urlVod, p).
Proof.
  intros [Hnone | (url & Hp & Hs)]; unfold MakeVodURL.
  - rewrite Hnone. reflexivity.
  - rewrite Hp, Hs. reflexivity.
Qed.

End Strategy.

Lemma SetStrategy_path_panics_witness :
  SetStrategy Demo.proxy_ab "http://a/videos"
    (Some (mk_QcdnStrategy "http://b" "")) = (Panic "invalid urlBase", Demo.proxy_ab)
  /\ SetStrategy Demo.proxy_ab "http://a"
       (Some (mk_QcdnStrategy "http://b/mirror" "")) = (Panic "invalid urlBase", Demo.proxy_ab)
  /\ SetStrategy Demo.proxy_ab "http://a"
       (Some (mk_QcdnStrategy "http://b" "http://c/boot")) = (Panic "invalid urlBase", Demo.proxy_ab).
Proof.
  split; [|split].
  - apply (SetStrategy_path_panics Demo.proxy_ab "http://a/videos"
             (mk_QcdnStrategy "http://b" "")).
    left. exists (mk_URL "http" "a" "/videos" "" ""). split; [reflexivity | discriminate].
  - apply (SetStrategy_path_panics Demo.proxy_ab "http://a"
             (mk_QcdnStrategy "http://b/mirror" "")).
    right; left. exists (mk_URL "http" "b" "/mirror" "" "").
    split; [reflexivity | discriminate].
  - apply (SetStrategy_path_panics Demo.proxy_ab "http://a"
             (mk_QcdnStrategy "http://b" "http://c/boot")).
    right; right. exists (mk_URL "http" "c" "/boot" "" "").
    split; [reflexivity | discriminate].
Defined.

Lemma MakeVodURL_passthrough_witness :
  MakeVodURL "http://127.0.0.1:4000" Demo.proxy_ab "http://c/video.mp4" 0
  = ("http://c/video.mp4", Demo.proxy_ab)
  /\ MakeVodURL "http://127.0.0.1:4000" Demo.proxy_ab (String "010" "http://a/x") 0
     = (String "010" "http://a/x", Demo.proxy_ab).
Proof.
  split.
  - apply (MakeVodURL_passthrough "http://127.0.0.1:4000" Demo.proxy_ab
             "http://c/video.mp4" 0).
    right. exists (mk_URL "http" "c" "/video.mp4" "" "").
    split; reflexivity.
  - apply (MakeVodURL_passthrough "http://127.0.0.1:4000" Demo.proxy_ab
             (String "010" "http://a/x") 0).
    left. reflexivity.
Defined.

(** A governed URL is rewritten to the proxy's endpoint. *)
Example MakeVodURL_governed :
  fst (MakeVodURL "http://127.0.0.1:4000" Demo.proxy_ab "http://a/video.mp4" 0)
  = "http://127.0.0.1:4000/http,a/video.mp4".
Proof. reflexivity. Qed.

(** A well-formed strategy is stored. *)
Example SetStrategy_stores :
  SetStrategy (NewQcdnProxy None) "http://a" (Some (mk_QcdnStrategy "http://b" ""))
  = (Ret tt, Demo.proxy_ab).
Proof. vm_compute. reflexivity. Qed.

(** ** The client's redirect loop *)

Lemma defaultCheckRedirect_bounded : bounded_policy defaultCheckRedirect.
Proof.
  intros req via last Hlen. unfold defaultCheckRedirect.
  destruct (Z.leb_spec 10 (Z.of_nat (List.length via))); [discriminate | lia].
Qed.

Lemma handle_CheckRedirect_bounded : bounded_policy handle_CheckRedirect.
Proof.
  intros req via last Hlen. unfold handle_CheckRedirect.
  destruct (Z.leb_spec 10 (Z.of_nat (List.length via))); [discriminate | lia].
Qed.

(** The first request a call sends is the one it was given. *)
Lemma do_loop_first_hop fuel check net reqs req last sent resp err last' hops :
  do_loop fuel check net reqs req last sent = Some (resp, err, last', hops) ->
  exists more, hops = req :: more.
Proof.
  destruct fuel as [|fuel]; [discriminate|]. cbn [do_loop].
  destruct (net sent req) as [|r|r loc].
  - intros [= <- <- <- <-]. eexists; reflexivity.
  - intros [= <- <- <- <-]. eexists; reflexivity.
  - destruct (check _ _ last) as [[| |e] l1].
    + destruct (do_loop fuel _ _ _ _ _ _) as [[[[r2 e2] l2] h2]|];
        [|discriminate].
      intros [= <- <- <- <-]. eexists; reflexivity.
    + intros [= <- <- <- <-]. eexists; reflexivity.
    + intros [= <- <- <- <-]. eexists; reflexivity.
Qed.

(** Under a bounded policy a call sends at most ten requests. *)
Lemma do_loop_hops_bound check (Hb : bounded_policy check) fuel :
  forall net reqs req last sent resp err last' hops,
    (List.length reqs < 10)%nat ->
    do_loop fuel check net reqs req last sent = Some (resp, err, last', hops) ->
    (List.length reqs + List.length hops <= 10)%nat.
Proof.
  induction fuel as [|fuel IH]; intros net reqs req last sent resp err last' hops
    Hlen; [discriminate|].
  cbn [do_loop].
  destruct (net sent req) as [|r|r loc].
  - intros [= <- <- <- <-]. simpl. lia.
  - intros [= <- <- <- <-]. simpl. lia.
  - pose proof (Hb (redirect_request loc) (reqs ++ [req]) last) as Hbound.
    destruct (check _ _ last) as [[| |e] l1].
    + destruct (do_loop fuel _ _ _ _ _ _) as [[[[r2 e2] l2] h2]|] eqn:Hrec;
        [|discriminate].
      intros [= <- <- <- <-].
      rewrite length_app in Hbound. cbn [List.length fst] in Hbound.
      assert (Hlt : (List.length (reqs ++ [req]) < 10)%nat).
      { rewrite length_app. cbn [List.length].
        destruct (Nat.le_gt_cases 10 (List.length reqs + 1)) as [Hge|Hlt];
          [exfalso; apply (Hbound Hge); reflexivity | exact Hlt]. }
      specialize (IH _ _ _ _ _ _ _ _ _ Hlt Hrec).
      rewrite length_app in IH. cbn [List.length] in *. lia.
    + intros [= <- <- <- <-]. simpl. lia.
    + intros [= <- <- <- <-]. simpl. lia.
Qed.

(** Under a bounded policy ten iterations are enough: the loop returns. *)
Lemma do_loop_returns check (Hb : bounded_policy check) fuel :
  forall net reqs req last sent,
    (1 <= fuel)%nat -> (10 <= List.length reqs + fuel)%nat ->
    exists res, do_loop fuel check net reqs req last sent = Some res.
Proof.
  induction fuel as [|fuel IH]; intros net reqs req last sent H1 H10; [lia|].
  cbn [do_loop].
  destruct (net sent req) as [|r|r loc]; [eexists; reflexivity ..|].
  pose proof (Hb (redirect_request loc) (reqs ++ [req]) last) as Hbound.
  destruct (check _ _ last) as [[| |e] l1]; [|eexists; reflexivity ..].
  rewrite length_app in Hbound. cbn [List.length fst] in Hbound.
  assert (Hlt : (List.length reqs + 1 < 10)%nat).
  { destruct (Nat.le_gt_cases 10 (List.length reqs + 1)) as [Hge|Hlt];
      [exfalso; apply (Hbound Hge); reflexivity | exact Hlt]. }
  destruct (IH net (reqs ++ [req]) (redirect_request loc) l1 (sent ++ [req]))
    as [[[[r2 e2] l2] h2] Hrec].
  - lia.
  - rewrite length_app. cbn [List.length]. lia.
  - rewrite Hrec. eexists; reflexivity.
Qed.


Lemma Client_Do_returns fuel c net req last sent :
  bounded_policy (checkRedirect c) -> (10 <= fuel)%nat ->
  exists res, Client_Do fuel c net req last sent = Some res.
Proof.
  intros Hb Hf. unfold Client_Do.
  apply do_loop_returns; [exact Hb | lia | simpl; lia].
Qed.

Lemma last_default_irrelevant {A} (l : list A) (d d' : A) :
  l <> [] -> List.last l d = List.last l d'.
Proof.
  induction l as [|x l IH]; [congruence|]. intros _.
  destruct l as [|y l]; [reflexivity|].
  change (List.last (y :: l) d = List.last (y :: l) d').
  apply IH. discriminate.
Qed.

(** With the handler's closure, [last] is assigned exactly when a
    redirect is followed, and then holds the last request sent. *)
Lemma do_loop_closure_last fuel :
  forall net reqs req last sent resp err last' hops,
    do_loop fuel handle_CheckRedirect net reqs req last sent
    = Some (resp, err, last', hops) ->
    (last' = last /\ hops = [req]) \/
    (exists r, last' = Some r /\ (1 < List.length hops)%nat /\
               List.last hops req = r).
Proof.
  induction fuel as [|fuel IH]; intros net reqs req last sent resp err last' hops;
    [discriminate|].
  cbn [do_loop].
  destruct (net sent req) as [|r|r loc].
  - intros [= <- <- <- <-]. left. split; reflexivity.
  - intros [= <- <- <- <-]. left. split; reflexivity.
  - unfold handle_CheckRedirect at 1.
    destruct (10 <=? Z.of_nat (List.length (reqs ++ [req]))).
    + intros [= <- <- <- <-]. left. split; reflexivity.
    + destruct (do_loop fuel _ _ _ _ _ _) as [[[[r2 e2] l2] h2]|] eqn:Hrec;
        [|discriminate].
      intros [= <- <- <- <-]. right.
      destruct (IH _ _ _ _ _ _ _ _ _ Hrec) as [[-> ->] | (r' & -> & Hlen & Hlast)].
      * eexists. split; [reflexivity|]. split; [simpl; lia | reflexivity].
      * exists r'. split; [reflexivity|]. split; [simpl; lia|].
        destruct h2 as [|x h2]; [simpl in Hlen; lia|].
        change (List.last (x :: h2) req = r').
        rewrite <- Hlast. apply last_default_irrelevant. discriminate.
Qed.

(** ** [serveRequest] *)

(** What [serveRequest] does, by the result of the client call. *)
Lemma serveRequest_eq fuel c net req last s :
  serveRequest fuel c net req last s
  = match Client_Do fuel c net req last (sent_of (h_calls s)) with
    | None => OutOfFuel
    | Some (resp, err, last', hops) =>
        let calls := h_calls s ++ [mk_attempt c req hops resp err last'] in
        match err, resp with
        | None, Some r =>
            if negb (Z.quot (StatusCode r) 100 =? 5)
            then Done (true, last')
                   (mk_hst (h_proxy s) (h_w s ++ stream r) calls (h_log s))
            else Done (false, last') (mk_hst (h_proxy s) (h_w s) calls (h_log s))
        | _, _ => Done (false, last') (mk_hst (h_proxy s) (h_w s) calls (h_log s))
        end
    end.
Proof.
  unfold serveRequest, mbind, H_bind, bindH, h_Do.
  destruct (Client_Do fuel c net req last (sent_of (h_calls s)))
    as [[[[resp err] last'] hops]|]; [|reflexivity].
  destruct err as [e|]; [reflexivity|].
  destruct resp as [r|]; [|reflexivity].
  destruct (negb (Z.quot (StatusCode r) 100 =? 5)); reflexivity.
Qed.

(** A response that is not a 5xx is streamed and reported as served. *)
Lemma serveRequest_served fuel c net req last s r last' hops :
  Client_Do fuel c net req last (sent_of (h_calls s))
  = Some (Some r, None, last', hops) ->
  Z.quot (StatusCode r) 100 <> 5 ->
  serveRequest fuel c net req last s
  = Done (true, last')
      (mk_hst (h_proxy s) (h_w s ++ stream r)
         (h_calls s ++ [mk_attempt c req hops (Some r) None last']) (h_log s)).
Proof.
  intros Hdo Hst. rewrite serveRequest_eq, Hdo. cbn zeta.
  destruct (Z.eqb_spec (Z.quot (StatusCode r) 100) 5); [contradiction|].
  reflexivity.
Qed.

(** An error, or a 5xx response, writes nothing and is reported as not
    served. *)
Lemma serveRequest_failed fuel c net req last s resp err last' hops :
  Client_Do fuel c net req last (sent_of (h_calls s))
  = Some (resp, err, last', hops) ->
  err <> None \/ (exists r, resp = Some r /\ Z.quot (StatusCode r) 100 = 5) ->
  serveRequest fuel c net req last s
  = Done (false, last')
      (mk_hst (h_proxy s) (h_w s)
         (h_calls s ++ [mk_attempt c req hops resp err last']) (h_log s)).
Proof.
  intros Hdo Hfail. rewrite serveRequest_eq, Hdo. cbn zeta.
  destruct err as [e|]; [reflexivity|].
  destruct Hfail as [Hne | (r & -> & H5)]; [congruence|].
  rewrite H5. reflexivity.
Qed.

(** ** The handler, stage by stage *)

Lemma handle_decoded fuel p net req uri :
  parseProxyPath (Path (rURL req)) = Ret (uri, true) ->
  run_handle fuel p net req
  = match first_attempt fuel net req uri (mk_hst p [] [] []) with
    | Done (true, _) s => Done tt s
    | Done (false, req') s => backup_stage fuel net req' uri s
    | Crashed msg s => Crashed msg s
    | OutOfFuel => OutOfFuel
    end.
Proof.
  intros Hparse. unfold run_handle, handle, mbind, H_bind, bindH, liftH.
  rewrite Hparse. cbn [negb].
  destruct (first_attempt fuel net req uri (mk_hst p [] [] []))
    as [[[|] req'] s|msg s|]; reflexivity.
Qed.

(** The first attempt is one [serveRequest] with the client and request
    of [first_target]; on a miss a served call that followed a redirect
    is recorded in the cache. *)
Lemma first_attempt_eq fuel net req uri p w calls lg :
  first_attempt fuel net req uri (mk_hst p w calls lg)
  = let '(c, req1) := first_target p req uri in
    match serveRequest fuel c net req1 None (mk_hst p w calls lg) with
    | Done (served, last) s =>
        match redirects p !! uri, served, last with
        | Some _, _, _ => Done (served, req1) s
        | None, true, Some l =>
            Done (true, req1)
              (mk_hst (setRedirect (h_proxy s) uri (resource_of (rURL l)))
                 (h_w s) (h_calls s)
                 (h_log s ++ [(uri, resource_of (rURL l))]))
        | None, _, _ => Done (false, req1) s
        end
    | Crashed msg s => Crashed msg s
    | OutOfFuel => OutOfFuel
    end.
Proof.
  unfold first_attempt, first_target, mbind, H_bind, bindH, h_redirectOf,
    get_proxy, redirectOf. cbn [h_proxy].
  destruct (redirects p !! uri) as [to|].
  - destruct (serveRequest _ _ _ _ _ _) as [[served last] s|msg s|];
      reflexivity.
  - destruct (serveRequest _ _ _ _ _ _) as [[[|] [l|]] s|msg s|];
      reflexivity.
Qed.

(** [serveRequest] keeps the proxy and only adds to the two logs. *)
Lemma serveRequest_proxy fuel c net req last s b last' s' :
  serveRequest fuel c net req last s = Done (b, last') s' ->
  h_proxy s' = h_proxy s.
Proof.
  rewrite serveRequest_eq.
  destruct (Client_Do _ _ _ _ _ _) as [[[[resp err] l] hops]|]; [|discriminate].
  cbn zeta. destruct err as [e|]; [intros [= <- <- <-]; reflexivity|].
  destruct resp as [r|]; [|intros [= <- <- <-]; reflexivity].
  destruct (negb _); intros [= <- <- <-]; reflexivity.
Qed.

Lemma serveRequest_no_crash fuel c net req last s msg s' :
  serveRequest fuel c net req last s <> Crashed msg s'.
Proof.
  rewrite serveRequest_eq.
  destruct (Client_Do _ _ _ _ _ _) as [[[[resp err] l] hops]|]; [|discriminate].
  cbn zeta. destruct err as [e|]; [discriminate|].
  destruct resp as [r|]; [|discriminate].
  destruct (negb _); discriminate.
Qed.

(** The backup stage when a strategy is stored and the backup host is not
    the host just tried. *)
Lemma backup_stage_eq fuel net req uri p w calls lg s :
  strategies p !! base uri = Some s ->
  Host (rURL req) <> host (backup s) ->
  backup_stage fuel net req uri (mk_hst p w calls lg)
  = match serveRequest fuel (client p) net
            (retarget req (path uri) (scheme (backup s)) (host (backup s)))
            None (mk_hst p w calls lg) with
    | Done (true, _) s1 =>
        Done tt (mk_hst (setRedirect (h_proxy s1) uri
                           (mk_resource (backup s) (path uri)))
                   (h_w s1) (h_calls s1)
                   (h_log s1 ++ [(uri, mk_resource (backup s) (path uri))]))
    | Done (false, _) s1 =>
        Done tt (mk_hst (h_proxy s1)
                   (h_w s1 ++ [HttpError "both main and backup server fail" 500])
                   (h_calls s1) (h_log s1))
    | Crashed msg s1 => Crashed msg s1
    | OutOfFuel => OutOfFuel
    end.
Proof.
  intros Hs Hne. unfold backup_stage, mbind, H_bind, bindH, get_proxy.
  cbn [h_proxy]. rewrite Hs.
  destruct (String.eqb_spec (Host (rURL req)) (host (backup s)));
    [contradiction|]. cbn [negb].
  destruct (serveRequest _ _ _ _ _ _) as [[[|] l] s1|msg s1|]; reflexivity.
Qed.

(** The backup stage when the backup host is the host just tried: no
    further call. *)
Lemma backup_stage_same_host fuel net req uri p w calls lg s :
  strategies p !! base uri = Some s ->
  Host (rURL req) = host (backup s) ->
  backup_stage fuel net req uri (mk_hst p w calls lg)
  = Done tt (mk_hst p (w ++ [HttpError "both main and backup server fail" 500])
               calls lg).
Proof.
  intros Hs He. unfold backup_stage, mbind, H_bind, bindH, get_proxy.
  cbn [h_proxy]. rewrite Hs, He, String.eqb_refl. reflexivity.
Qed.

Lemma backup_stage_no_strategy fuel net req uri p w calls lg :
  strategies p !! base uri = None ->
  backup_stage fuel net req uri (mk_hst p w calls lg)
  = Done tt (mk_hst p (w ++ [HttpError "url strategy not found" 500]) calls lg).
Proof.
  intros Hs. unfold backup_stage, mbind, H_bind, bindH, get_proxy.
  cbn [h_proxy]. rewrite Hs. reflexivity.
Qed.

(** ** A primary that answers without a redirect *)

(** C1: on a cache miss, when the primary origin answers 200 without a
    redirect, the handler streams that answer and then goes on to the
    backup stage: it sends a second upstream request, to the backup
    origin, streams the backup's answer to the same writer, and records
    the backup in the redirect cache. *)
Theorem handle_primary_ok_reaches_backup :
  exists s',
    run_handle 11 Demo.proxy_ab Demo.net_all_ok (incoming "/http,a/x")
    = Done tt s' /\
    map (fun a => resource_of (rURL (a_req a))) (h_calls s')
    = [mk_resource Demo.origin_a "/x"; mk_resource Demo.origin_b "/x"] /\
    h_w s' = stream (Demo.ok200 "main") ++ stream (Demo.ok200 "backup") /\
    redirects (h_proxy s') !! mk_resource Demo.origin_a "/x"
    = Some (mk_resource Demo.origin_b "/x").
Proof.
  eexists. split; [vm_compute; reflexivity|].
  split; [reflexivity|]. split; [reflexivity|]. vm_compute. reflexivity.
Qed.

(** On a cache hit, and on a miss that followed a redirect, a served
    answer does end the handler. *)
Example handle_hit_ok_stops :
  exists s',
    run_handle 11
      (setRedirect Demo.proxy_ab (mk_resource Demo.origin_a "/x")
         (mk_resource Demo.origin_a "/x"))
      Demo.net_all_ok (incoming "/http,a/x") = Done tt s' /\
    h_w s' = stream (Demo.ok200 "main") /\
    List.length (h_calls s') = 1%nat.
Proof. eexists. split; [vm_compute; reflexivity|]. split; reflexivity. Qed.

(** ** The cache-hit attempt *)

(** C3, as stated, fails: the cache-hit call is made with the proxy's own
    client, whose redirect policy is the default one, so a cached target
    that answers with a redirect is followed and more than one upstream
    request is sent. *)
Lemma cache_hit_follows_redirects :
  ~ (forall fuel p net req uri to s',
        parseProxyPath (Path (rURL req)) = Ret (uri, true) ->
        redirects p !! uri = Some to ->
        run_handle fuel p net req = Done tt s' ->
        exists a rest, h_calls s' = a :: rest /\
                       resource_of (rURL (a_req a)) = to /\
                       a_hops a = [a_req a]).
Proof.
  intros Hclaim.
  pose (uri := mk_resource Demo.origin_a "/x").
  pose (to := mk_resource Demo.origin_b "/x").
  pose (p := setRedirect Demo.proxy_ab uri to).
  assert (Hrun : exists s',
             run_handle 11 p Demo.net_b_redirects (incoming "/http,a/x")
             = Done tt s' /\
             map (fun a => List.length (a_hops a)) (h_calls s') = [2%nat] /\
             h_w s' = stream (Demo.ok200 "moved")).
  { eexists. split; [vm_compute; reflexivity|]. split; reflexivity. }
  destruct Hrun as (s' & Hrun & Hlen & _).
  assert (Hhit : redirects p !! uri = Some to) by (vm_compute; reflexivity).
  destruct (Hclaim 11%nat p Demo.net_b_redirects (incoming "/http,a/x") uri to s'
              eq_refl Hhit Hrun) as (a & rest & Hcalls & _ & Hhops).
  rewrite Hcalls in Hlen. cbn [map] in Hlen. rewrite Hhops in Hlen.
  discriminate.
Qed.

(** C3, amended: on a cache hit the handler makes one call with the
    proxy's own client (default redirect policy) to the cached resource;
    when the call returns a response that is not a 5xx, that response is
    streamed as it is (headers, status, body), nothing else is written,
    no other call is made and the cache is not written. *)
Theorem handle_cache_hit (fuel : nat) (p : QcdnProxy) (net : network)
    (req : Request) (uri to : resource) (resp : Response)
    (last : option Request) (hops : list Request) :
  let req1 :=
    clear_RequestURI
      (retarget req (path to) (scheme (base to)) (host (base to))) in
  parseProxyPath (Path (rURL req)) = Ret (uri, true) ->
  redirects p !! uri = Some to ->
  CheckRedirect (client p) = None ->
  do_loop fuel defaultCheckRedirect net [] req1 None []
  = Some (Some resp, None, last, hops) ->
  Z.quot (StatusCode resp) 100 <> 5 ->
  resource_of (rURL req1) = to /\
  (exists more, hops = req1 :: more) /\
  run_handle fuel p net req
  = Done tt (mk_hst p (stream resp)
               [mk_attempt (client p) req1 hops (Some resp) None last] []).
Proof.
  intros req1 Hparse Hhit Hnil Hdo H5.
  split; [destruct to as [[sc ho] pa]; reflexivity|].
  split; [eapply do_loop_first_hop; exact Hdo|].
  rewrite (handle_decoded _ _ _ _ _ Hparse), first_attempt_eq.
  unfold first_target. rewrite Hhit. fold req1.
  rewrite (serveRequest_served fuel (client p) net req1 None (mk_hst p [] [] [])
             resp last hops).
  - reflexivity.
  - unfold Client_Do, checkRedirect. rewrite Hnil. exact Hdo.
  - exact H5.
Qed.

Lemma handle_cache_hit_witness :
  exists hops,
    run_handle 11
      (setRedirect Demo.proxy_ab (mk_resource Demo.origin_a "/x")
         (mk_resource Demo.origin_b "/x"))
      Demo.net_b_redirects (incoming "/http,a/x")
    = Done tt
        (mk_hst
           (setRedirect Demo.proxy_ab (mk_resource Demo.origin_a "/x")
              (mk_resource Demo.origin_b "/x"))
           (stream (Demo.ok200 "moved"))
           [mk_attempt (mk_Client 0 None)
              (mk_Request (mk_URL "http" "b" "/x" "" "") "b" "")
              hops (Some (Demo.ok200 "moved")) None None] [])
    /\ List.length hops = 2%nat.
Proof.
  eexists. split.
  - apply (handle_cache_hit 11
             (setRedirect Demo.proxy_ab (mk_resource Demo.origin_a "/x")
                (mk_resource Demo.origin_b "/x"))
             Demo.net_b_redirects (incoming "/http,a/x")
             (mk_resource Demo.origin_a "/x") (mk_resource Demo.origin_b "/x")
             (Demo.ok200 "moved") None).
    + reflexivity.
    + vm_compute. reflexivity.
    + reflexivity.
    + vm_compute. reflexivity.
    + vm_compute. discriminate.
  - reflexivity.
Defined.

(** ** The backup attempt *)

Lemma first_target_resource_hit p req uri to :
  redirects p !! uri = Some to ->
  resource_of (rURL (snd (first_target p req uri))) = to.
Proof.
  intros Hhit. unfold first_target. rewrite Hhit.
  destruct to as [[sc ho] pa]. reflexivity.
Qed.

(** After the backup has been recorded for [uri], a request for [uri]
    makes one call, to the backup origin, and none to any other. *)
Lemma handle_after_backup_recorded fuel p net req uri s s' :
  parseProxyPath (Path (rURL req)) = Ret (uri, true) ->
  strategies p !! base uri = Some s ->
  redirects p !! uri = Some (mk_resource (backup s) (path uri)) ->
  run_handle fuel p net req = Done tt s' ->
  exists a, h_calls s' = [a] /\
            a_client a = client p /\
            resource_of (rURL (a_req a)) = mk_resource (backup s) (path uri).
Proof.
  intros Hparse Hs Hhit.
  rewrite (handle_decoded _ _ _ _ _ Hparse), first_attempt_eq.
  pose proof (first_target_resource_hit p req uri _ Hhit) as Htarget.
  assert (Hhost : Host (rURL (snd (first_target p req uri))) = host (backup s)).
  { unfold first_target. rewrite Hhit. reflexivity. }
  assert (Hclient : fst (first_target p req uri) = client p).
  { unfold first_target. rewrite Hhit. reflexivity. }
  destruct (first_target p req uri) as [c req1]. cbn [fst snd] in *. subst c.
  rewrite serveRequest_eq. cbn [h_calls h_proxy h_w sent_of flat_map].
  destruct (Client_Do _ _ _ _ _ _) as [[[[resp err] l] hops]|]; [|discriminate].
  cbn zeta. rewrite Hhit. cbn [app].
  assert (Hfail : forall w,
             backup_stage fuel net req1 uri
               (mk_hst p w [mk_attempt (client p) req1 hops resp err l] [])
             = Done tt s' ->
             exists a, h_calls s' = [a] /\ a_client a = client p /\
                       resource_of (rURL (a_req a))
                       = mk_resource (backup s) (path uri)).
  { intros w. rewrite (backup_stage_same_host _ _ _ _ _ _ _ _ _ Hs Hhost).
    intros [= <-]. eexists. split; [reflexivity|]. split; [reflexivity|].
    exact Htarget. }
  destruct err as [e|]; [apply Hfail|].
  destruct resp as [r|]; [|apply Hfail].
  destruct (negb _); [|apply Hfail].
  intros [= <-]. eexists. split; [reflexivity|]. split; [reflexivity|].
  exact Htarget.
Qed.

(** C4: when the first attempt failed (error or 5xx), a strategy is
    stored for the decoded origin and the backup host is not the host
    just tried, the handler makes one call to the backup origin with the
    decoded path; when that call returns a response that is not a 5xx,
    the response is streamed, [uri -> (backup, path)] is stored in the
    redirect cache, and from then on a request for the same resource
    makes its only call to the backup. *)
Theorem handle_backup_success (fuel : nat) (p : QcdnProxy) (net : network)
    (req : Request) (uri : resource) (s : urlStrategy)
    (resp1 : option Response) (err1 : option string)
    (last1 last2 : option Request) (hops1 hops2 : list Request)
    (resp2 : Response) :
  let c1 := fst (first_target p req uri) in
  let req1 := snd (first_target p req uri) in
  let req2 := retarget req1 (path uri) (scheme (backup s)) (host (backup s)) in
  let p' := setRedirect p uri (mk_resource (backup s) (path uri)) in
  parseProxyPath (Path (rURL req)) = Ret (uri, true) ->
  Client_Do fuel c1 net req1 None [] = Some (resp1, err1, last1, hops1) ->
  (err1 <> None \/ exists r, resp1 = Some r /\ Z.quot (StatusCode r) 100 = 5) ->
  strategies p !! base uri = Some s ->
  Host (rURL req1) <> host (backup s) ->
  Client_Do fuel (client p) net req2 None hops1
  = Some (Some resp2, None, last2, hops2) ->
  Z.quot (StatusCode resp2) 100 <> 5 ->
  resource_of (rURL req2) = mk_resource (backup s) (path uri) /\
  (exists more, hops2 = req2 :: more) /\
  run_handle fuel p net req
  = Done tt (mk_hst p' (stream resp2)
               [mk_attempt c1 req1 hops1 resp1 err1 last1;
                mk_attempt (client p) req2 hops2 (Some resp2) None last2]
               [(uri, mk_resource (backup s) (path uri))]) /\
  redirects p' !! uri = Some (mk_resource (backup s) (path uri)) /\
  (forall fuel' net' req' s',
      parseProxyPath (Path (rURL req')) = Ret (uri, true) ->
      run_handle fuel' p' net' req' = Done tt s' ->
      exists a, h_calls s' = [a] /\
                a_client a = client p' /\
                resource_of (rURL (a_req a)) = mk_resource (backup s) (path uri)).
Proof.
  intros c1 req1 req2 p' Hparse Hdo1 Hfail Hs Hne Hdo2 H5.
  assert (Hcached : redirects p' !! uri = Some (mk_resource (backup s) (path uri))).
  { unfold p', setRedirect, set_redirects. cbn [redirects].
    apply lookup_insert_eq. }
  split; [destruct s as [[sc ho] bo]; reflexivity|].
  split; [eapply do_loop_first_hop; exact Hdo2|].
  split; [|split; [exact Hcached|]].
  - rewrite (handle_decoded _ _ _ _ _ Hparse), first_attempt_eq.
    fold c1 req1. rewrite (surjective_pairing (first_target p req uri)).
    fold c1 req1.
    rewrite (serveRequest_failed fuel c1 net req1 None (mk_hst p [] [] [])
               resp1 err1 last1 hops1 Hdo1 Hfail).
    cbn [h_proxy h_w h_calls app].
    assert (Hstage :
      backup_stage fuel net req1 uri
        (mk_hst p [] [mk_attempt c1 req1 hops1 resp1 err1 last1] [])
      = Done tt (mk_hst p' (stream resp2)
                   [mk_attempt c1 req1 hops1 resp1 err1 last1;
                    mk_attempt (client p) req2 hops2 (Some resp2) None last2]
                   [(uri, mk_resource (backup s) (path uri))])).
    { rewrite (backup_stage_eq _ _ _ _ _ _ _ _ _ Hs Hne). fold req2.
      rewrite (serveRequest_served fuel (client p) net req2 None _ resp2 last2
                 hops2); [reflexivity | | exact H5].
      cbn [h_calls sent_of flat_map a_hops]. rewrite app_nil_r. exact Hdo2. }
    destruct (redirects p !! uri); exact Hstage.
  - intros fuel' net' req' s' Hparse' Hrun'.
    apply (handle_after_backup_recorded fuel' p' net' req' uri s s' Hparse');
      [exact Hs | exact Hcached | exact Hrun'].
Qed.

Lemma handle_backup_success_witness :
  run_handle 11 Demo.proxy_ab Demo.net_a_down (incoming "/http,a/x")
  = Done tt Demo.served_by_backup.
Proof.
  apply (handle_backup_success 11 Demo.proxy_ab Demo.net_a_down
           (incoming "/http,a/x") (mk_resource Demo.origin_a "/x")
           (mk_urlStrategy Demo.origin_b zero_urlBase)
           (Some (mk_Response 500 [] "fail")) None None None
           [mk_Request (mk_URL "http" "a" "/x" "" "") "a" ""]
           [mk_Request (mk_URL "http" "b" "/x" "" "") "b" ""]
           (Demo.ok200 "backup")).
  - reflexivity.
  - vm_compute. reflexivity.
  - right. eexists. split; reflexivity.
  - vm_compute. reflexivity.
  - vm_compute. discriminate.
  - vm_compute. reflexivity.
  - vm_compute. discriminate.
Defined.

(** ** The redirect bound on a cache miss *)

Lemma handle_CheckRedirect_refuses req via last :
  (10 <= List.length via)%nat ->
  handle_CheckRedirect req via last = (Refuse "stopped after 10 redirects", last).
Proof.
  intros Hlen. unfold handle_CheckRedirect.
  destruct (Z.leb_spec 10 (Z.of_nat (List.length via))); [reflexivity | lia].
Qed.

Lemma handle_CheckRedirect_follows req via last :
  (List.length via < 10)%nat ->
  handle_CheckRedirect req via last = (Follow, Some req).
Proof.
  intros Hlen. unfold handle_CheckRedirect.
  destruct (Z.leb_spec 10 (Z.of_nat (List.length via))); [lia | reflexivity].
Qed.

(** A chain of redirects that reaches the bound: the call sends the
    requests up to the bound and returns the policy's error. *)
Lemma do_loop_chain_refused (k : nat) :
  forall fuel net reqs req last sent,
    redirect_chain k net sent req = true ->
    (1 <= k)%nat -> (List.length reqs + k = 10)%nat -> (k <= fuel)%nat ->
    exists resp last' hops,
      do_loop fuel handle_CheckRedirect net reqs req last sent
      = Some (Some resp, Some "stopped after 10 redirects", last', hops)
      /\ List.length hops = k.
Proof.
  induction k as [|k IH]; intros fuel net reqs req last sent Hchain Hk Hlen Hfuel;
    [lia|].
  destruct fuel as [|fuel]; [lia|].
  cbn [redirect_chain] in Hchain. cbn [do_loop].
  destruct (net sent req) as [|r|r loc]; [discriminate ..|].
  destruct k as [|k].
  - rewrite handle_CheckRedirect_refuses
      by (rewrite length_app; cbn [List.length]; lia).
    exists r, last, [req]. split; reflexivity.
  - rewrite handle_CheckRedirect_follows
      by (rewrite length_app; cbn [List.length]; lia).
    destruct (IH fuel net (reqs ++ [req]) (redirect_request loc)
                (Some (redirect_request loc)) (sent ++ [req]) Hchain)
      as (resp & last' & hops & Hrec & Hhops).
    + lia.
    + rewrite length_app. cbn [List.length]. lia.
    + lia.
    + rewrite Hrec. exists resp, last', (req :: hops).
      split; [reflexivity | cbn [List.length]; lia].
Qed.

(** C9: the redirect check installed on a cache miss returns the error
    "stopped after 10 redirects" exactly when ten or more requests have
    already been made, so a primary attempt never sends more than ten
    requests; an attempt stopped by the check writes nothing and hands
    the request over to the backup stage. *)
Theorem cache_miss_redirect_bound :
  (forall req via last,
      (10 <= List.length via)%nat ->
      handle_CheckRedirect req via last
      = (Refuse "stopped after 10 redirects", last)) /\
  (forall req via last,
      (List.length via < 10)%nat ->
      handle_CheckRedirect req via last = (Follow, Some req)) /\
  (forall fuel c net req last sent resp err last' hops,
      Client_Do fuel (with_CheckRedirect c handle_CheckRedirect) net req last sent
      = Some (resp, err, last', hops) ->
      (List.length hops <= 10)%nat) /\
  (forall fuel p net req uri,
      parseProxyPath (Path (rURL req)) = Ret (uri, true) ->
      redirects p !! uri = None ->
      redirect_chain 10 net [] (snd (first_target p req uri)) = true ->
      (10 <= fuel)%nat ->
      exists a,
        List.length (a_hops a) = 10%nat /\
        a_err a = Some "stopped after 10 redirects" /\
        run_handle fuel p net req
        = backup_stage fuel net (snd (first_target p req uri)) uri
            (mk_hst p [] [a] [])).
Proof.
  split; [exact handle_CheckRedirect_refuses|].
  split; [exact handle_CheckRedirect_follows|].
  split.
  - intros fuel c net req last sent resp err last' hops Hdo.
    unfold Client_Do, checkRedirect, with_CheckRedirect in Hdo.
    cbn [CheckRedirect] in Hdo.
    apply (do_loop_hops_bound _ handle_CheckRedirect_bounded) in Hdo;
      cbn [List.length] in *; lia.
  - intros fuel p net req uri Hparse Hmiss Hchain Hfuel.
    rewrite (handle_decoded _ _ _ _ _ Hparse), first_attempt_eq.
    revert Hchain. unfold first_target. rewrite Hmiss. cbn [snd]. intros Hchain.
    destruct (do_loop_chain_refused 10 fuel net [] _ None [] Hchain)
      as (resp & last' & hops & Hdo & Hhops); [lia | reflexivity | lia |].
    rewrite (serveRequest_failed fuel _ net _ None (mk_hst p [] [] [])
               (Some resp) (Some "stopped after 10 redirects") last' hops);
      [| exact Hdo | left; discriminate].
    cbn [h_proxy h_w h_calls app].
    eexists. split; [|split; [|reflexivity]]; [exact Hhops | reflexivity].
Qed.

Lemma cache_miss_redirect_bound_witness :
  exists a,
    List.length (a_hops a) = 10%nat /\
    a_err a = Some "stopped after 10 redirects" /\
    run_handle 11 Demo.proxy_ab Demo.net_loop (incoming "/http,a/x")
    = backup_stage 11 Demo.net_loop
        (snd (first_target Demo.proxy_ab (incoming "/http,a/x")
                (mk_resource Demo.origin_a "/x")))
        (mk_resource Demo.origin_a "/x")
        (mk_hst Demo.proxy_ab [] [a] []).
Proof.
  apply (proj2 (proj2 (proj2 cache_miss_redirect_bound)) 11%nat Demo.proxy_ab
           Demo.net_loop (incoming "/http,a/x") (mk_resource Demo.origin_a "/x")).
  - reflexivity.
  - vm_compute. reflexivity.
  - vm_compute. reflexivity.
  - lia.
Defined.

(** A redirect loop on the primary ends the request with the backup's
    verdict, here a second stopped attempt and the final error. *)
Example handle_redirect_loop :
  exists s',
    run_handle 11 Demo.proxy_ab Demo.net_loop (incoming "/http,a/x")
    = Done tt s' /\
    h_w s' = [HttpError "both main and backup server fail" 500] /\
    map (fun a => List.length (a_hops a)) (h_calls s') = [10%nat; 10%nat].
Proof. eexists. split; [vm_compute; reflexivity|]. split; reflexivity. Qed.

(** ** Lists *)

Lemma lookup_In_list {A} (l : list A) : forall i x, l !! i = Some x -> In x l.
Proof.
  induction l as [|a l IH]; intros i x Hl; [discriminate|].
  destruct i as [|i]; [injection Hl as <-; left; reflexivity|].
  right. apply (IH i x Hl).
Qed.

(** ** Provenance of the redirect cache *)

(** A finished [serveRequest] keeps the proxy and the log and records one
    call; when it reports [true] the call returned a response that is
    not a 5xx. *)
Lemma serveRequest_done fuel c net req last s b l s1 :
  serveRequest fuel c net req last s = Done (b, l) s1 ->
  h_proxy s1 = h_proxy s /\ h_log s1 = h_log s /\
  exists a, h_calls s1 = h_calls s ++ [a] /\
            a_client a = c /\ a_req a = req /\ a_last a = l /\
            Client_Do fuel c net req last (sent_of (h_calls s))
            = Some (a_resp a, a_err a, a_last a, a_hops a) /\
            (b = true -> non5xx a).
Proof.
  rewrite serveRequest_eq.
  destruct (Client_Do _ _ _ _ _ _) as [[[[resp err] l0] hops]|]; [|discriminate].
  cbn zeta.
  assert (Hfalse : forall w,
    Done (false, l0)
      (mk_hst (h_proxy s) w (h_calls s ++ [mk_attempt c req hops resp err l0])
         (h_log s))
    = Done (b, l) s1 ->
    h_proxy s1 = h_proxy s /\ h_log s1 = h_log s /\
    exists a, h_calls s1 = h_calls s ++ [a] /\
              a_client a = c /\ a_req a = req /\ a_last a = l /\
              Some (resp, err, l0, hops)
              = Some (a_resp a, a_err a, a_last a, a_hops a) /\
              (b = true -> non5xx a)).
  { intros w [= <- <- <-]. do 2 (split; [reflexivity|]). eexists.
    do 5 (split; [reflexivity|]). discriminate. }
  destruct err as [e|]; [apply Hfalse|].
  destruct resp as [r|]; [|apply Hfalse].
  destruct (Z.eqb_spec (Z.quot (StatusCode r) 100) 5) as [H5|H5];
    cbn [negb]; [apply Hfalse|].
  intros [= <- <- <-]. do 2 (split; [reflexivity|]). eexists.
  do 5 (split; [reflexivity|]).
  intros _. split; [reflexivity|]. exists r. split; [reflexivity | exact H5].
Qed.

(** The first attempt: it never panics; when it does not end the handler
    the proxy is untouched; when it writes the cache, the entry is for
    [uri] and the call it made was served after a redirect. *)
Lemma first_attempt_done fuel net req uri p stop req1 s1 :
  first_attempt fuel net req uri (mk_hst p [] [] []) = Done (stop, req1) s1 ->
  req1 = snd (first_target p req uri) /\
  ((h_proxy s1 = p /\ h_log s1 = []) \/
   exists a to, stop = true /\ In a (h_calls s1) /\ non5xx a /\
                followed_redirect a /\ h_proxy s1 = setRedirect p uri to /\
                h_log s1 = [(uri, to)]) /\
  (stop = false -> h_proxy s1 = p /\ h_log s1 = []).
Proof.
  rewrite first_attempt_eq.
  destruct (first_target p req uri) as [c rq] eqn:Htarget. cbn [snd].
  destruct (serveRequest fuel c net rq None (mk_hst p [] [] []))
    as [[served last] s|msg s|] eqn:Hserve; [|discriminate ..].
  destruct (serveRequest_done _ _ _ _ _ _ _ _ _ Hserve)
    as (Hp & Hlog & a & Hcalls & Hc & _ & Hlast & Hdo & Hok).
  cbn [h_proxy h_calls h_log app] in *.
  destruct (redirects p !! uri) as [to|] eqn:Hhit.
  - intros [= <- <- <-]. split; [reflexivity|].
    split; [left; split; assumption|]. intros _. split; assumption.
  - destruct served; [destruct last as [l|]|].
    + intros [= <- <- <-]. split; [reflexivity|]. split; [|discriminate].
      right. exists a, (resource_of (rURL l)).
      split; [reflexivity|]. cbn [h_calls h_proxy h_log]. rewrite Hcalls.
      split; [left; reflexivity|]. split; [apply Hok; reflexivity|].
      split; [|rewrite Hp, Hlog; split; reflexivity].
      unfold first_target in Htarget. rewrite Hhit in Htarget.
      injection Htarget as <- <-.
      unfold Client_Do, checkRedirect, with_CheckRedirect in Hdo.
      cbn [CheckRedirect] in Hdo.
      destruct (do_loop_closure_last _ _ _ _ _ _ _ _ _ _ Hdo)
        as [[Habs _] | (r & _ & Hlen & _)]; [congruence | exact Hlen].
    + intros [= <- <- <-]. split; [reflexivity|].
      split; [left; split; assumption|]. intros _. split; assumption.
    + intros [= <- <- <-]. split; [reflexivity|].
      split; [left; split; assumption|]. intros _. split; assumption.
Qed.

Lemma first_attempt_no_crash fuel net req uri s msg s1 :
  first_attempt fuel net req uri s <> Crashed msg s1.
Proof.
  destruct s as [p w calls lg]. rewrite first_attempt_eq.
  destruct (first_target p req uri) as [c rq].
  pose proof (serveRequest_no_crash fuel c net rq None (mk_hst p w calls lg)) as Hn.
  destruct (serveRequest fuel c net rq None (mk_hst p w calls lg))
    as [[served last] s|m s|]; [|exfalso; eapply Hn; reflexivity | discriminate].
  destruct (redirects p !! uri); [discriminate|].
  destruct served; [destruct last|]; discriminate.
Qed.

(** The backup stage: it never panics; when it writes the cache, the
    entry is for [uri] and a call to the backup origin was served. *)
Lemma backup_stage_done fuel net req uri p w calls lg s2 :
  backup_stage fuel net req uri (mk_hst p w calls lg) = Done tt s2 ->
  (h_proxy s2 = p /\ h_log s2 = lg) \/
  exists a s, In a (h_calls s2) /\ non5xx a /\
              strategies p !! base uri = Some s /\
              resource_of (rURL (a_req a)) = mk_resource (backup s) (path uri) /\
              h_proxy s2 = setRedirect p uri (mk_resource (backup s) (path uri)) /\
              h_log s2 = lg ++ [(uri, mk_resource (backup s) (path uri))].
Proof.
  destruct (strategies p !! base uri) as [s|] eqn:Hs.
  2:{ rewrite (backup_stage_no_strategy _ _ _ _ _ _ _ _ Hs).
      intros [= <-]. left. split; reflexivity. }
  destruct (String.eqb_spec (Host (rURL req)) (host (backup s))) as [He|Hne].
  { rewrite (backup_stage_same_host _ _ _ _ _ _ _ _ _ Hs He).
    intros [= <-]. left. split; reflexivity. }
  rewrite (backup_stage_eq _ _ _ _ _ _ _ _ _ Hs Hne).
  destruct (serveRequest _ _ _ _ _ _) as [[served last] s1|msg s1|] eqn:Hserve;
    [|discriminate ..].
  destruct (serveRequest_done _ _ _ _ _ _ _ _ _ Hserve)
    as (Hp & Hlog & a & Hcalls & _ & Hreq & _ & _ & Hok).
  cbn [h_proxy h_calls h_log] in *.
  destruct served; intros [= <-]; cbn [h_proxy h_calls h_log].
  - right. exists a, s. rewrite Hcalls, Hp, Hlog.
    split; [apply in_or_app; right; left; reflexivity|].
    split; [apply Hok; reflexivity|]. split; [reflexivity|].
    split; [|split; reflexivity].
    rewrite Hreq. destruct s as [[sc ho] bo]. reflexivity.
  - left. split; assumption.
Qed.

Lemma backup_stage_no_crash fuel net req uri s msg s2 :
  backup_stage fuel net req uri s <> Crashed msg s2.
Proof.
  destruct s as [p w calls lg].
  destruct (strategies p !! base uri) as [st|] eqn:Hs.
  2:{ rewrite (backup_stage_no_strategy _ _ _ _ _ _ _ _ Hs). discriminate. }
  destruct (String.eqb_spec (Host (rURL req)) (host (backup st))) as [He|Hne].
  { rewrite (backup_stage_same_host _ _ _ _ _ _ _ _ _ Hs He). discriminate. }
  rewrite (backup_stage_eq _ _ _ _ _ _ _ _ _ Hs Hne).
  pose proof (serveRequest_no_crash fuel (client p) net
                (retarget req (path uri) (scheme (backup st)) (host (backup st)))
                None (mk_hst p w calls lg)) as Hn.
  destruct (serveRequest _ _ _ _ _ _) as [[[|] last] s1|m s1|];
    [discriminate | discriminate | exfalso; eapply Hn; reflexivity | discriminate].
Qed.

(** One handler invocation makes at most one [setRedirect], for the
    decoded resource, and only after a served call that followed a
    redirect or went to the backup origin. *)
Lemma run_handle_cache fuel p net req s' :
  (run_handle fuel p net req = Done tt s' \/
   exists msg, run_handle fuel p net req = Crashed msg s') ->
  (h_proxy s' = p /\ h_log s' = []) \/
  exists uri to, h_proxy s' = setRedirect p uri to /\
                 h_log s' = [(uri, to)] /\
                 justifies uri (mk_handled p req s').
Proof.
  unfold justifies. cbn [hd_req hd_end hd_before].
  destruct (parseProxyPath (Path (rURL req))) as [[uri [|]]|msg] eqn:Hparse.
  - rewrite (handle_decoded _ _ _ _ _ Hparse).
    destruct (first_attempt fuel net req uri (mk_hst p [] [] []))
      as [[stop req1] s1|msg s1|] eqn:Hfirst.
    + destruct (first_attempt_done _ _ _ _ _ _ _ _ Hfirst)
        as (_ & Hwrite & Hnostop).
      destruct stop.
      * intros [[= <-] | [msg [=]]].
        destruct Hwrite as [Hp | (a & to & _ & Hin & Hok & Hred & Hp & Hlog)];
          [left; exact Hp|].
        right. exists uri, to. split; [exact Hp|]. split; [exact Hlog|].
        split; [reflexivity|].
        exists a. split; [exact Hin|]. split; [exact Hok|]. left. exact Hred.
      * destruct (Hnostop eq_refl) as [Hp1 Hlog1].
        destruct s1 as [p1 w1 calls1 lg1].
        cbn [h_proxy h_log] in Hp1, Hlog1. subst p1 lg1.
        intros [Hdone | [msg Hcrash]];
          [|exfalso; eapply backup_stage_no_crash; exact Hcrash].
        destruct (backup_stage_done _ _ _ _ _ _ _ _ _ Hdone)
          as [Hp | (a & s & Hin & Hok & Hs & Hres & Hp & Hlog)]; [left; exact Hp|].
        right. exists uri, (mk_resource (backup s) (path uri)).
        split; [exact Hp|]. split; [exact Hlog|]. split; [reflexivity|].
        exists a. split; [exact Hin|]. split; [exact Hok|].
        right. exists s. split; [exact Hs | exact Hres].
    + exfalso. eapply first_attempt_no_crash; exact Hfirst.
    + intros [[=] | [msg [=]]].
  - rewrite (handle_undecodable _ _ _ _ _ Hparse).
    intros [[= <-] | [msg [=]]]. left. split; reflexivity.
  - unfold run_handle, handle, mbind, H_bind, bindH, liftH. rewrite Hparse.
    intros [[=] | [m [= _ <-]]]. left. split; reflexivity.
Qed.

Lemma In_remove_at {A} (l : list A) : forall i x,
  In x (remove_at i l) -> In x l.
Proof.
  induction l as [|a l IH]; intros i x Hin; [destruct i; exact Hin|].
  destruct i as [|i]; [right; exact Hin|].
  destruct Hin as [<- | Hin]; [left; reflexivity | right; apply (IH i x Hin)].
Qed.

Section Provenance.
Context `{NetURL}.

Lemma SetStrategy_redirects p u s :
  redirects (snd (SetStrategy p u s)) = redirects p.
Proof.
  unfold SetStrategy. destruct (urlBaseOf u); [|reflexivity].
  destruct s as [s|]; [|reflexivity].
  destruct (urlBaseOf (Backup s)); [|reflexivity].
  destruct (urlBaseOf (Boot s)); reflexivity.
Qed.

Lemma MakeVodURL_redirects srv p u n :
  redirects (snd (MakeVodURL srv p u n)) = redirects p.
Proof.
  unfold MakeVodURL. destruct (url_Parse u) as [url|]; [|reflexivity].
  destruct (strategies p !! _); [|reflexivity].
  unfold getProxyHost. destruct (init p); reflexivity.
Qed.

Lemma Close_redirects p : redirects (Close p) = redirects p.
Proof. unfold Close. destruct (server p); reflexivity. Qed.

(** A handler that starts joins the running ones with a justified log. *)
Lemma apply_op_serve fuel net req st st' :
  apply_op (OpServe fuel net req) st = Some st' ->
  exists e, st' = mk_pstate (st_proxy st) (st_running st ++ [e]) (st_history st)
            /\ log_justified e.
Proof.
  cbn [apply_op]. intros Hop.
  assert (Hrun : exists s',
             st' = mk_pstate (st_proxy st)
                     (st_running st ++ [mk_handled (st_proxy st) req s'])
                     (st_history st) /\
             (run_handle fuel (st_proxy st) net req = Done tt s' \/
              exists msg, run_handle fuel (st_proxy st) net req = Crashed msg s')).
  { destruct (run_handle fuel (st_proxy st) net req) as [[] s'|msg s'|];
      [| |discriminate]; injection Hop as <-; exists s';
      (split; [reflexivity|]);
      [left; reflexivity | right; exists msg; reflexivity]. }
  destruct Hrun as (s' & -> & Hrun). eexists. split; [reflexivity|].
  destruct (run_handle_cache _ _ _ _ _ Hrun)
    as [[_ Hlog] | (uri & to & _ & Hlog & Hj)].
  - left. exact Hlog.
  - right. exists uri, to. split; [exact Hlog | exact Hj].
Qed.

Lemma provenance_inv_step o st st' :
  provenance_inv st -> apply_op o st = Some st' -> provenance_inv st'.
Proof.
  intros [Hkeys Hrun].
  destruct o as [u s|srv u n|fuel net req|i|].
  - intros [= <-]. split; [|exact Hrun]. cbn [st_proxy st_history].
    rewrite SetStrategy_redirects. exact Hkeys.
  - intros [= <-]. split; [|exact Hrun]. cbn [st_proxy st_history].
    rewrite MakeVodURL_redirects. exact Hkeys.
  - intros Hop. destruct (apply_op_serve _ _ _ _ _ Hop) as (e & -> & He).
    split; [exact Hkeys|]. cbn [st_running]. intros e' Hin.
    apply in_app_or in Hin. destruct Hin as [Hin | [<- | []]];
      [apply Hrun; exact Hin | exact He].
  - cbn [apply_op]. destruct (st_running st !! i) as [e|] eqn:Hl; [|discriminate].
    intros [= <-]. cbn [st_proxy st_running st_history]. split.
    + intros k Hk.
      assert (Hold : is_Some (redirects (st_proxy st) !! k) ->
                     exists e0, In e0 (st_history st ++ [e]) /\ justifies k e0).
      { intros Hk0. destruct (Hkeys k Hk0) as (e0 & Hin & Hj).
        exists e0. split; [apply in_or_app; left; exact Hin | exact Hj]. }
      destruct (Hrun e (lookup_In_list _ _ _ Hl))
        as [Hlog | (uri & to & Hlog & Hj)];
        rewrite Hlog in Hk; cbn [replay fold_left fst snd st_proxy] in Hk.
      * apply Hold, Hk.
      * unfold setRedirect, set_redirects in Hk. cbn [st_proxy redirects] in Hk.
        destruct (decide (uri = k)) as [->|Hne].
        -- exists e. split; [apply in_or_app; right; left; reflexivity | exact Hj].
        -- rewrite lookup_insert_ne in Hk by exact Hne. apply Hold, Hk.
    + intros e' Hin. apply Hrun. eapply In_remove_at. exact Hin.
  - intros [= <-]. split; [|exact Hrun]. cbn [st_proxy st_history].
    rewrite Close_redirects. exact Hkeys.
Qed.

Lemma provenance_inv_run ops : forall st st',
  provenance_inv st -> run_ops ops st = Some st' -> provenance_inv st'.
Proof.
  induction ops as [|o ops IH]; intros st st' Hinv.
  - intros [= <-]. exact Hinv.
  - cbn [run_ops]. destruct (apply_op o st) as [st1|] eqn:Hop; [|discriminate].
    apply IH. eapply provenance_inv_step; eassumption.
Qed.

Lemma provenance_inv_reachable st : reachable st -> provenance_inv st.
Proof.
  intros (conf & ops & Hrun).
  apply (provenance_inv_run ops _ _) in Hrun; [exact Hrun|].
  split.
  - intros k [v Hk]. cbn [st_proxy NewQcdnProxy redirects] in Hk.
    rewrite lookup_empty in Hk. discriminate.
  - intros e [].
Qed.

(** C6: in every state a serving proxy can reach, handlers running
    concurrently, each key of the redirect cache has a handler
    invocation that has returned, for that resource, and that completed
    a call with a response that is not a 5xx, after following a redirect
    or against the backup origin; no operation removes a key, and only
    the [setRedirect] of a returning handler changes the cache. *)
Theorem redirect_cache_provenance :
  (forall st,
      reachable st ->
      forall k, is_Some (redirects (st_proxy st) !! k) ->
                exists e, In e (st_history st) /\ justifies k e) /\
  (forall o st st',
      reachable st ->
      apply_op o st = Some st' ->
      (forall k, is_Some (redirects (st_proxy st) !! k) ->
                 is_Some (redirects (st_proxy st') !! k)) /\
      match o with
      | OpCommit _ => True
      | _ => redirects (st_proxy st') = redirects (st_proxy st)
      end).
Proof.
  split.
  - intros st Hreach. exact (proj1 (provenance_inv_reachable st Hreach)).
  - intros o st st' Hreach Hop.
    destruct (provenance_inv_reachable st Hreach) as [_ Hrun].
    destruct o as [u s|srv u n|fuel net req|i|].
    + injection Hop as <-. cbn [st_proxy]. rewrite SetStrategy_redirects.
      split; [trivial | reflexivity].
    + injection Hop as <-. cbn [st_proxy]. rewrite MakeVodURL_redirects.
      split; [trivial | reflexivity].
    + destruct (apply_op_serve _ _ _ _ _ Hop) as (e & -> & _).
      split; [trivial | reflexivity].
    + split; [|exact I]. cbn [apply_op] in Hop.
      destruct (st_running st !! i) as [e|] eqn:Hl; [|discriminate].
      injection Hop as <-. cbn [st_proxy]. intros k Hk.
      destruct (Hrun e (lookup_In_list _ _ _ Hl))
        as [Hlog | (uri & to & Hlog & _)];
        rewrite Hlog; cbn [replay fold_left fst snd]; [exact Hk|].
      unfold setRedirect, set_redirects. cbn [redirects].
      destruct (decide (uri = k)) as [->|Hne].
      * rewrite lookup_insert_eq. eexists; reflexivity.
      * rewrite lookup_insert_ne by exact Hne. exact Hk.
    + injection Hop as <-. cbn [st_proxy]. rewrite Close_redirects.
      split; [trivial | reflexivity].
Qed.

End Provenance.

Lemma redirect_cache_provenance_witness :
  exists st,
    run_ops [OpSetStrategy "http://a" (Some (mk_QcdnStrategy "http://b" ""));
             OpServe 11 Demo.net_a_down (incoming "/http,a/x");
             OpServe 11 Demo.net_a_down (incoming "/http,a/x");
             OpCommit 1; OpCommit 0]
      (mk_pstate (NewQcdnProxy None) [] []) = Some st
    /\ redirects (st_proxy st) !! mk_resource Demo.origin_a "/x"
       = Some (mk_resource Demo.origin_b "/x")
    /\ exists e, In e (st_history st)
                 /\ justifies (mk_resource Demo.origin_a "/x") e.
Proof.
  eexists. split; [vm_compute; reflexivity|].
  split; [vm_compute; reflexivity|].
  apply (proj1 redirect_cache_provenance).
  - exists None.
    exists [OpSetStrategy "http://a" (Some (mk_QcdnStrategy "http://b" ""));
            OpServe 11 Demo.net_a_down (incoming "/http,a/x");
            OpServe 11 Demo.net_a_down (incoming "/http,a/x");
            OpCommit 1; OpCommit 0].
    vm_compute. reflexivity.
  - exists (mk_resource Demo.origin_b "/x"). vm_compute. reflexivity.
Defined.

(** ** The mutex around the redirect map *)

Section LockingFacts.
Import Locking.

Lemma program_not_critical cs : in_critical (program cs) = false.
Proof. destruct cs as [|[k|k v] cs]; reflexivity. Qed.

Lemma at_point_critical b c : at_point b c -> in_critical c = b.
Proof. intros []; try reflexivity. apply program_not_critical. Qed.

Lemma in_access_critical c : in_access c = true -> in_critical c = true.
Proof. destruct c as [|[| | | |k|k v] rest]; try discriminate; reflexivity. Qed.

(** One step from a point of the calls leads to a point of the calls;
    only [Lock] enters a locked region, only [Unlock] leaves it, and a
    map access lies inside one. *)
Lemma at_point_step b i rest :
  at_point b (i :: rest) ->
  exists b', at_point b' rest /\
    match i with
    | Lock => b = false /\ b' = true /\ in_access rest = false
    | Unlock => b = true /\ b' = false /\ in_access rest = false
    | Println => b = false /\ b' = false /\ in_access rest = false
    | AccessBegin => b = true /\ b' = true /\ in_access rest = true
    | ReadEnd _ | WriteEnd _ _ => b = true /\ b' = true /\ in_access rest = false
    end.
Proof.
  intros Hat. remember (i :: rest) as c eqn:Ec.
  destruct Hat as [cs|k v cs|k cs|k v cs|k cs|k v cs|cs].
  - destruct cs as [|[k|k v] cs]; [discriminate| |].
    + injection Ec as <- <-. exists true.
      split; [apply at_begin_read | repeat split].
    + injection Ec as <- <-. exists false.
      split; [apply at_lock_write | repeat split].
  - injection Ec as <- <-. exists true.
    split; [apply at_begin_write | repeat split].
  - injection Ec as <- <-. exists true.
    split; [apply at_read | repeat split].
  - injection Ec as <- <-. exists true.
    split; [apply at_write | repeat split].
  - injection Ec as <- <-. exists true.
    split; [apply at_unlock | repeat split].
  - injection Ec as <- <-. exists true.
    split; [apply at_unlock | repeat split].
  - injection Ec as <- <-. exists false.
    split; [apply at_idle | repeat split].
    destruct cs as [|[k|k v] cs]; reflexivity.
Qed.

Lemma count_where_insert f pl : forall t c c',
  pl !! t = Some c ->
  (count_where f (<[t := c']> pl) + (if f c then 1 else 0)
   = count_where f pl + (if f c' then 1 else 0))%nat.
Proof.
  induction pl as [|x pl IH]; intros t c c' Hl; [discriminate|].
  destruct t as [|t].
  - injection Hl as ->. change (<[0%nat := c']> (c :: pl)) with (c' :: pl).
    cbn [count_where]. lia.
  - change (<[S t := c']> (x :: pl)) with (x :: <[t := c']> pl).
    cbn [count_where]. specialize (IH t c c' Hl). lia.
Qed.

Lemma count_where_one f pl : forall i c,
  pl !! i = Some c -> f c = true -> (1 <= count_where f pl)%nat.
Proof.
  induction pl as [|x pl IH]; intros i c Hl Hc; [discriminate|].
  destruct i as [|i]; cbn [count_where].
  - injection Hl as ->. rewrite Hc. lia.
  - specialize (IH i c Hl Hc). lia.
Qed.

Lemma count_where_two f pl : forall i j ci cj,
  pl !! i = Some ci -> pl !! j = Some cj -> i <> j ->
  f ci = true -> f cj = true -> (2 <= count_where f pl)%nat.
Proof.
  induction pl as [|x pl IH]; intros i j ci cj Hi Hj Hne Hci Hcj; [discriminate|].
  destruct i as [|i], j as [|j]; cbn [count_where]; [congruence| | |].
  - injection Hi as ->. rewrite Hci.
    pose proof (count_where_one f pl j cj Hj Hcj). lia.
  - injection Hj as ->. rewrite Hcj.
    pose proof (count_where_one f pl i ci Hi Hci). lia.
  - assert (Hne' : i <> j) by congruence.
    pose proof (IH i j ci cj Hi Hj Hne' Hci Hcj). lia.
Qed.

Lemma count_where_pos f pl :
  (1 <= count_where f pl)%nat -> exists i c, pl !! i = Some c /\ f c = true.
Proof.
  induction pl as [|x pl IH]; cbn [count_where]; [lia|]. intros Hpos.
  destruct (f x) eqn:Hx.
  - exists 0%nat, x. split; [reflexivity | exact Hx].
  - destruct IH as (i & c & Hl & Hc); [lia|].
    exists (S i), c. split; [exact Hl | exact Hc].
Qed.

Lemma Forall_list_insert {A} (P : A -> Prop) (l : list A) (i : nat) (x : A) :
  Forall P l -> P x -> Forall P (<[i := x]> l).
Proof.
  intros Hl Hx. revert i. induction Hl as [|y l Hy Hl IH]; intros i.
  - constructor.
  - destruct i as [|i]; constructor; auto.
Qed.

Lemma mutex_inv_start m progs : mutex_inv (start m progs).
Proof.
  unfold mutex_inv, start. cbn [pool locked accessing overlapped]. split.
  - apply List.Forall_forall. intros c Hin. apply in_map_iff in Hin.
    destruct Hin as (cs & <- & _). exists false. apply at_idle.
  - split; [|split; [|reflexivity]];
      induction progs as [|cs progs IH]; try reflexivity; cbn [map count_where].
    + rewrite program_not_critical, IH. reflexivity.
    + rewrite IH. destruct cs as [|[k|k v] cs]; reflexivity.
Qed.

(** While one goroutine is about to begin an access, no access is under
    way: a goroutine inside an access would be a second one inside a
    locked region. *)
Lemma no_access_under_way st t rest :
  count_where in_critical (pool st) = (if locked st then 1%nat else 0%nat) ->
  pool st !! t = Some (AccessBegin :: rest) ->
  count_where in_access (pool st) = 0%nat.
Proof.
  intros Hcount Hl.
  destruct (count_where in_access (pool st)) as [|n] eqn:Hacc; [reflexivity|].
  exfalso.
  destruct (count_where_pos in_access (pool st)) as (j & c & Hj & Hc); [lia|].
  assert (Hne : t <> j).
  { intros ->. rewrite Hl in Hj. injection Hj as <-. discriminate. }
  pose proof (count_where_two in_critical _ _ _ _ _ Hl Hj Hne eq_refl
                (in_access_critical _ Hc)).
  destruct (locked st); lia.
Qed.

Lemma mutex_inv_exec t st st' :
  mutex_inv st -> exec t st = Some st' -> mutex_inv st'.
Proof.
  intros (Hall & Hcount & Hacc & Hover). unfold exec.
  destruct (pool st !! t) as [[|i rest]|] eqn:Hl; [discriminate| |discriminate].
  assert (Hat : exists b, at_point b (i :: rest)).
  { rewrite List.Forall_forall in Hall. apply Hall. eapply lookup_In_list. exact Hl. }
  destruct Hat as [b Hat].
  pose proof (at_point_critical _ _ Hat) as Hb.
  destruct (at_point_step _ _ _ Hat) as (b' & Hat' & Hi).
  pose proof (at_point_critical _ _ Hat') as Hb'.
  pose proof (count_where_insert in_critical (pool st) t (i :: rest) rest Hl) as Hins.
  pose proof (count_where_insert in_access (pool st) t (i :: rest) rest Hl) as Hina.
  rewrite Hb, Hb' in Hins.
  assert (Hall' : Forall (fun c => exists b, at_point b c) (<[t := rest]> (pool st))).
  { apply Forall_list_insert; [exact Hall | exists b'; exact Hat']. }
  destruct i as [| | | |k|k v]; destruct Hi as (-> & -> & Hrest);
    rewrite Hrest in Hina; cbn [in_access] in Hina.
  - intros [= <-]. split; [exact Hall'|]. cbn [pool locked accessing overlapped].
    split; [|split; [|exact Hover]]; lia.
  - destruct (locked st) eqn:Hlk; [discriminate|].
    intros [= <-]. split; [exact Hall'|]. cbn [pool locked accessing overlapped].
    split; [|split; [|exact Hover]]; lia.
  - destruct (locked st) eqn:Hlk; [|discriminate].
    intros [= <-]. split; [exact Hall'|]. cbn [pool locked accessing overlapped].
    split; [|split; [|exact Hover]]; lia.
  - pose proof (no_access_under_way st t rest Hcount Hl) as Hzero.
    intros [= <-]. split; [exact Hall'|]. cbn [pool locked accessing overlapped].
    split; [lia|]. split; [lia|].
    rewrite Hover, <- Hacc, Hzero. reflexivity.
  - intros [= <-]. split; [exact Hall'|]. cbn [pool locked accessing overlapped].
    split; [|split; [|exact Hover]]; lia.
  - intros [= <-]. split; [exact Hall'|]. cbn [pool locked accessing overlapped].
    split; [|split; [|exact Hover]]; lia.
Qed.

(** No deadlock: while a goroutine has steps left, some goroutine can
    take a step. *)
Lemma exec_progress st :
  mutex_inv st -> ~ finished st -> exists t st', exec t st = Some st'.
Proof.
  intros (Hall & Hcount & _ & _) Hnot. unfold exec.
  destruct (locked st) eqn:Hlk.
  - destruct (count_where_pos in_critical (pool st)) as (i & c & Hl & Hc); [lia|].
    exists i. rewrite Hl.
    destruct c as [|[| | | |k|k v] rest]; try discriminate; eexists; reflexivity.
  - assert (Hex : exists i ins rest, pool st !! i = Some (ins :: rest)).
    { unfold finished in Hnot. clear -Hnot.
      induction (pool st) as [|c pl IH].
      - exfalso. apply Hnot. constructor.
      - destruct c as [|ins rest].
        + destruct IH as (i & ins & rest & Hl).
          * intros Hf. apply Hnot. constructor; [reflexivity | exact Hf].
          * exists (S i), ins, rest. exact Hl.
        + exists 0%nat, ins, rest. reflexivity. }
    destruct Hex as (i & ins & rest & Hl). exists i. rewrite Hl.
    destruct (in_critical (ins :: rest)) eqn:Hc.
    + pose proof (count_where_one in_critical _ _ _ Hl Hc). lia.
    + destruct ins; try discriminate; eexists; reflexivity.
Qed.

Lemma mutex_inv_run sched : forall st st',
  mutex_inv st -> run sched st = Some st' -> mutex_inv st'.
Proof.
  induction sched as [|t sched IH]; intros st st' Hinv.
  - intros [= <-]. exact Hinv.
  - cbn [run]. destruct (exec t st) as [st1|] eqn:Hex; [|discriminate].
    apply IH. eapply mutex_inv_exec; eassumption.
Qed.

End LockingFacts.

Section RaceFacts.
Import Locking.

Lemma lookup_map_Some {A B} (f : A -> B) (l : list A) : forall i y,
  map f l !! i = Some y -> exists x, l !! i = Some x /\ y = f x.
Proof.
  induction l as [|a l IH]; intros i y Hl; [discriminate|].
  destruct i as [|i].
  - injection Hl as <-. exists a. split; reflexivity.
  - apply (IH i y Hl).
Qed.

Lemma lookup_list_insert_cases {A} (l : list A) : forall t i x c,
  <[t := x]> l !! i = Some c ->
  (i = t /\ c = x) \/ (i <> t /\ l !! i = Some c).
Proof.
  induction l as [|a l IH]; intros t i x c Hl; [destruct t; discriminate|].
  destruct t as [|t], i as [|i].
  - injection Hl as <-. left. split; reflexivity.
  - right. split; [discriminate | exact Hl].
  - right. split; [discriminate | exact Hl].
  - destruct (IH t i x c Hl) as [[-> ->] | [Hne Hl']].
    + left. split; reflexivity.
    + right. split; [congruence | exact Hl'].
Qed.

Lemma race_inv_start m uri tos :
  race_inv m uri tos (start m (map (resolution uri) tos)).
Proof.
  unfold race_inv, start. cbn [pool cmap].
  split; [rewrite !length_map; reflexivity|].
  split; [|split; [right|reflexivity]].
  - intros i c Hl. apply lookup_map_Some in Hl. destruct Hl as (cs & Hl & ->).
    apply lookup_map_Some in Hl. destruct Hl as (to & Hl & ->).
    exists to. split; [exact Hl | tauto].
  - intros i c Hl. apply lookup_map_Some in Hl. destruct Hl as (cs & Hl & ->).
    apply lookup_map_Some in Hl. destruct Hl as (to & Hl & ->).
    exists to. cbn. tauto.
Qed.

(** A [WriteEnd] among the steps of a resolution is the write of its own
    value to [uri]. *)
Lemma resolution_write uri to k v :
  In (WriteEnd k v) (program (resolution uri to)) -> k = uri /\ v = to.
Proof.
  cbn. intros [H|[H|[H|[H|[H|[H|[H|[H|[H|[]]]]]]]]]]; try discriminate.
  injection H as <- <-. split; reflexivity.
Qed.

Lemma race_inv_exec m uri tos t st st' :
  race_inv m uri tos st -> exec t st = Some st' -> race_inv m uri tos st'.
Proof.
  intros (Hlen & Hown & Hval & Hrest). unfold exec.
  destruct (pool st !! t) as [[|i rest]|] eqn:Hl; [discriminate| |discriminate].
  destruct (Hown t _ Hl) as (to_t & Hto & Hsteps).
  assert (Hlen' : List.length (<[t := rest]> (pool st)) = List.length tos).
  { rewrite length_insert. exact Hlen. }
  assert (Hown' : forall j c, <[t := rest]> (pool st) !! j = Some c ->
            exists to, tos !! j = Some to /\
                       forall ins, In ins c -> In ins (program (resolution uri to))).
  { intros j c Hj. destruct (lookup_list_insert_cases _ _ _ _ _ Hj)
      as [[-> ->] | [_ Hj']]; [|exact (Hown j c Hj')].
    exists to_t. split; [exact Hto|]. intros ins Hin. apply Hsteps. right. exact Hin. }
  assert (Hkeep : i <> WriteEnd uri to_t ->
            (forall j c, pool st !! j = Some c -> exists to, In (WriteEnd uri to) c) ->
            forall j c, <[t := rest]> (pool st) !! j = Some c ->
                        exists to, In (WriteEnd uri to) c).
  { intros Hi Hahead j c Hj. destruct (lookup_list_insert_cases _ _ _ _ _ Hj)
      as [[-> ->] | [_ Hj']]; [|exact (Hahead j c Hj')].
    destruct (Hahead t _ Hl) as (to & [Heq | Hin]); [|exists to; exact Hin].
    exfalso. apply Hi.
    destruct (resolution_write uri to_t uri to) as [_ ->]; [|exact Heq].
    apply Hsteps. left. exact Heq. }
  assert (Hsame : forall lk acc ov, i <> WriteEnd uri to_t ->
            race_inv m uri tos
              (mk_cstate lk acc ov (cmap st) (<[t := rest]> (pool st)))).
  { intros lk acc ov Hi. split; [exact Hlen'|]. split; [exact Hown'|].
    split; [|exact Hrest]. cbn [cmap pool].
    destruct Hval as [Hv | Hahead]; [left; exact Hv | right].
    apply Hkeep; assumption. }
  destruct i as [| | | |k|k v].
  - intros [= <-]. apply Hsame. discriminate.
  - destruct (locked st); [discriminate|]. intros [= <-]. apply Hsame. discriminate.
  - destruct (locked st); [|discriminate]. intros [= <-]. apply Hsame. discriminate.
  - intros [= <-]. apply Hsame. discriminate.
  - intros [= <-]. apply Hsame. discriminate.
  - intros [= <-].
    destruct (resolution_write uri to_t k v) as [-> ->];
      [apply Hsteps; left; reflexivity|].
    split; [exact Hlen'|]. split; [exact Hown'|]. cbn [cmap pool]. split.
    + left. exists to_t. split; [eapply lookup_In_list; exact Hto|].
      apply lookup_insert_eq.
    + intros k Hk. rewrite lookup_insert_ne by congruence. apply Hrest, Hk.
Qed.

Lemma race_inv_run m uri tos sched : forall st st',
  race_inv m uri tos st -> run sched st = Some st' -> race_inv m uri tos st'.
Proof.
  induction sched as [|t sched IH]; intros st st' Hinv.
  - intros [= <-]. exact Hinv.
  - cbn [run]. destruct (exec t st) as [st1|] eqn:Hex; [|discriminate].
    apply IH. eapply race_inv_exec; eassumption.
Qed.

(** C10: whatever the schedule of the goroutines that call [redirectOf]
    and [setRedirect], no two accesses to the redirect map ever overlap:
    at most one goroutine is between a [Lock] and its [Unlock], and the
    mutex is held there; and when [n >= 1] handlers that missed the
    cache for the same resource have all finished their resolution, the
    cache holds for it one of the [n] resolved values, the other entries
    being as before. *)
Theorem redirect_cache_mutual_exclusion :
  (forall m progs sched st,
      run sched (start m progs) = Some st ->
      overlapped st = false /\
      (forall i j ci cj,
          pool st !! i = Some ci -> pool st !! j = Some cj ->
          in_critical ci = true -> in_critical cj = true -> i = j) /\
      (forall i ci,
          pool st !! i = Some ci -> in_critical ci = true -> locked st = true)) /\
  (forall m uri tos sched st,
      tos <> [] ->
      run sched (start m (map (resolution uri) tos)) = Some st ->
      finished st ->
      (exists to, In to tos /\ cmap st !! uri = Some to) /\
      (forall k, k <> uri -> cmap st !! k = m !! k)).
Proof.
  split.
  - intros m progs sched st Hrun.
    destruct (mutex_inv_run sched _ _ (mutex_inv_start m progs) Hrun)
      as (_ & Hcount & _ & Hover).
    split; [exact Hover|]. split.
    + intros i j ci cj Hi Hj Hci Hcj.
      destruct (Nat.eq_dec i j) as [|Hne]; [assumption|exfalso].
      pose proof (count_where_two in_critical _ _ _ _ _ Hi Hj Hne Hci Hcj).
      destruct (locked st); lia.
    + intros i ci Hi Hci. pose proof (count_where_one in_critical _ _ _ Hi Hci).
      destruct (locked st); [reflexivity | lia].
  - intros m uri tos sched st Hne Hrun Hfin.
    destruct (race_inv_run m uri tos sched _ _ (race_inv_start m uri tos) Hrun)
      as (Hlen & _ & Hval & Hrest).
    split; [|exact Hrest].
    destruct Hval as [Hv | Hahead]; [exact Hv|exfalso].
    destruct (pool st) as [|c pl] eqn:Hpool.
    + destruct tos; [congruence | discriminate].
    + destruct (Hahead 0%nat c eq_refl) as (to & Hin).
      unfold finished in Hfin. rewrite Hpool in Hfin.
      inversion Hfin as [|? ? Hc _]; subst. destruct Hin.
Qed.

End RaceFacts.

Lemma redirect_cache_mutual_exclusion_witness :
  exists st,
    Locking.run
      [0; 0; 0; 0; 1; 1; 1; 1; 0; 1; 1; 1; 1; 1; 0; 0; 0; 0]%nat
      (Locking.start ∅
         (map (Locking.resolution (mk_resource Demo.origin_a "/x"))
            [mk_resource Demo.origin_b "/x"; mk_resource Demo.origin_c "/y"]))
    = Some st /\
    Locking.finished st /\
    (exists to,
        In to [mk_resource Demo.origin_b "/x"; mk_resource Demo.origin_c "/y"] /\
        Locking.cmap st !! mk_resource Demo.origin_a "/x" = Some to).
Proof.
  eexists. split; [vm_compute; reflexivity|].
  split; [repeat constructor|].
  apply (proj2 redirect_cache_mutual_exclusion ∅
           (mk_resource Demo.origin_a "/x")
           [mk_resource Demo.origin_b "/x"; mk_resource Demo.origin_c "/y"]
           [0; 0; 0; 0; 1; 1; 1; 1; 0; 1; 1; 1; 1; 1; 0; 0; 0; 0]%nat).
  - discriminate.
  - vm_compute. reflexivity.
  - repeat constructor.
Defined.

(** Without the mutex the same two accesses can overlap. *)
Example unlocked_accesses_overlap :
  exists st,
    Locking.run [0; 1]%nat
      (Locking.mk_cstate false 0 false ∅
         [[Locking.AccessBegin;
           Locking.WriteEnd (mk_resource Demo.origin_a "/x")
             (mk_resource Demo.origin_b "/x")];
          [Locking.AccessBegin;
           Locking.WriteEnd (mk_resource Demo.origin_a "/x")
             (mk_resource Demo.origin_c "/y")]])
    = Some st /\ Locking.overlapped st = true.
Proof. eexists. split; [vm_compute; reflexivity | reflexivity]. Qed.

(** ** Enough fuel: the handler returns *)

Lemma serveRequest_returns fuel c net req last s :
  bounded_policy (checkRedirect c) -> (10 <= fuel)%nat ->
  exists b l s1, serveRequest fuel c net req last s = Done (b, l) s1.
Proof.
  intros Hb Hf. rewrite serveRequest_eq.
  destruct (Client_Do_returns fuel c net req last (sent_of (h_calls s)) Hb Hf)
    as [[[[resp err] l] hops] ->].
  cbn zeta. destruct err as [e|]; [do 3 eexists; reflexivity|].
  destruct resp as [r|]; [|do 3 eexists; reflexivity].
  destruct (negb _); do 3 eexists; reflexivity.
Qed.

Lemma first_target_bounded p req uri :
  CheckRedirect (client p) = None ->
  bounded_policy (checkRedirect (fst (first_target p req uri))).
Proof.
  intros Hnil. unfold first_target.
  destruct (redirects p !! uri); cbn [fst]; unfold checkRedirect.
  - rewrite Hnil. exact defaultCheckRedirect_bounded.
  - exact handle_CheckRedirect_bounded.
Qed.

(** With the client [NewQcdnProxy] makes, ten iterations of the redirect
    loop are always enough: the handler ends, normally or by the panic
    of the empty path. *)
Lemma run_handle_returns fuel p net req :
  CheckRedirect (client p) = None -> (10 <= fuel)%nat ->
  run_handle fuel p net req <> OutOfFuel.
Proof.
  intros Hnil Hf.
  destruct (parseProxyPath (Path (rURL req))) as [[uri [|]]|msg] eqn:Hparse.
  - rewrite (handle_decoded _ _ _ _ _ Hparse), first_attempt_eq.
    pose proof (first_target_bounded p req uri Hnil) as Hb.
    destruct (first_target p req uri) as [c req1]. cbn [fst] in Hb.
    destruct (serveRequest_returns fuel c net req1 None (mk_hst p [] [] []) Hb Hf)
      as (b & l & s1 & Hserve).
    rewrite Hserve.
    pose proof (serveRequest_proxy _ _ _ _ _ _ _ _ _ Hserve) as Hp.
    destruct s1 as [p1 w1 calls1 lg1]. cbn [h_proxy] in Hp. subst p1.
    assert (Hstage : backup_stage fuel net req1 uri (mk_hst p w1 calls1 lg1)
                     <> OutOfFuel).
    { destruct (strategies p !! base uri) as [st|] eqn:Hs.
      2:{ rewrite (backup_stage_no_strategy _ _ _ _ _ _ _ _ Hs). discriminate. }
      destruct (String.eqb_spec (Host (rURL req1)) (host (backup st)))
        as [He|Hne].
      { rewrite (backup_stage_same_host _ _ _ _ _ _ _ _ _ Hs He). discriminate. }
      rewrite (backup_stage_eq _ _ _ _ _ _ _ _ _ Hs Hne).
      destruct (serveRequest_returns fuel (client p) net
                  (retarget req1 (path uri) (scheme (backup st))
                     (host (backup st)))
                  None (mk_hst p w1 calls1 lg1)) as (b2 & l2 & s2 & ->);
        [unfold checkRedirect; rewrite Hnil;
         exact defaultCheckRedirect_bounded | exact Hf |].
      destruct b2; discriminate. }
    destruct (redirects p !! uri); [destruct b; [discriminate | exact Hstage]|].
    destruct b; [destruct l; [discriminate | exact Hstage] | exact Hstage].
  - rewrite (handle_undecodable _ _ _ _ _ Hparse). discriminate.
  - unfold run_handle, handle, mbind, H_bind, bindH, liftH. rewrite Hparse.
    discriminate.
Qed.

Section ReachableClient.
Context `{NetURL}.

Lemma replay_client lines : forall p, client (replay lines p) = client p.
Proof.
  induction lines as [|line lines IH]; intros p; [reflexivity|].
  cbn [replay fold_left]. exact (IH _).
Qed.

Lemma apply_op_client o st st' :
  apply_op o st = Some st' -> client (st_proxy st') = client (st_proxy st).
Proof.
  destruct o as [u s|srv u n|fuel net req|i|]; cbn [apply_op].
  - intros [= <-]. cbn [st_proxy]. unfold SetStrategy.
    destruct (urlBaseOf u); [|reflexivity].
    destruct s as [s|]; [|reflexivity].
    destruct (urlBaseOf (Backup s)); [|reflexivity].
    destruct (urlBaseOf (Boot s)); reflexivity.
  - intros [= <-]. cbn [st_proxy]. unfold MakeVodURL.
    destruct (url_Parse u) as [url|]; [|reflexivity].
    destruct (strategies (st_proxy st) !! _); [|reflexivity].
    unfold getProxyHost. destruct (init (st_proxy st)); reflexivity.
  - destruct (run_handle fuel (st_proxy st) net req) as [[] s'|msg s'|];
      [| |discriminate]; intros [= <-]; reflexivity.
  - destruct (st_running st !! i) as [e|]; [|discriminate].
    intros [= <-]. cbn [st_proxy]. apply replay_client.
  - intros [= <-]. cbn [st_proxy]. unfold Close.
    destruct (server (st_proxy st)); reflexivity.
Qed.

(** Every proxy a program can reach has the client [NewQcdnProxy] made:
    its redirect policy is the default one. *)
Lemma reachable_client st :
  reachable st -> CheckRedirect (client (st_proxy st)) = None.
Proof.
  intros (conf & ops & Hrun).
  assert (Hgen : forall ops st0,
             run_ops ops st0 = Some st ->
             client (st_proxy st) = client (st_proxy st0)).
  { clear. intros ops. induction ops as [|o ops IH]; intros st0.
    - intros [= <-]. reflexivity.
    - cbn [run_ops].
      destruct (apply_op o st0) as [st1|] eqn:Hop; [|discriminate].
      intros Hrun. rewrite (IH _ Hrun). exact (apply_op_client _ _ _ Hop). }
  rewrite (Hgen _ _ Hrun). reflexivity.
Qed.

(** A handler can always start on a reachable proxy, given ten
    iterations of fuel. *)
Lemma reachable_serve st fuel net req :
  reachable st -> (10 <= fuel)%nat ->
  exists st', apply_op (OpServe fuel net req) st = Some st'.
Proof.
  intros Hreach Hf. cbn [apply_op].
  pose proof (run_handle_returns fuel (st_proxy st) net req
                (reachable_client st Hreach) Hf) as Hret.
  destruct (run_handle fuel (st_proxy st) net req) as [[] s'|msg s'|];
    [eexists; reflexivity | eexists; reflexivity | contradiction].
Qed.

End ReachableClient.

(* ===================================================================== *)
(** * Further properties *)
(* ===================================================================== *)

(** ** The path codec, both ways *)

(** A string that contains byte [c] splits at its first occurrence. *)
Lemma has_byte_split (c : ascii) (s : string) :
  has_byte c s = true ->
  exists a b, s = a +:+ String c b /\ has_byte c a = false.
Proof.
  induction s as [|d s IH]; [discriminate|]. cbn [has_byte].
  destruct (Ascii.eqb d c) eqn:Hd.
  - apply Ascii.eqb_eq in Hd. subst d. intros _.
    exists EmptyString, s. split; reflexivity.
  - intros Hs. destruct (IH Hs) as (a & b & -> & Ha).
    exists (String d a), b. split; [reflexivity|].
    cbn [has_byte]. rewrite Hd. exact Ha.
Qed.

(** [SplitN(s, c, 2)] gives one piece or two, never more. *)
Lemma SplitN_two_cases (c : ascii) (s : string) :
  (has_byte c s = false /\ SplitN s (String c EmptyString) 2 = [s]) \/
  (exists a b, s = a +:+ String c b /\ has_byte c a = false /\
               SplitN s (String c EmptyString) 2 = [a; b]).
Proof.
  destruct (has_byte c s) eqn:Hs.
  - right. destruct (has_byte_split c s Hs) as (a & b & -> & Ha).
    exists a, b. split; [reflexivity|]. split; [exact Ha|].
    apply SplitN_two_cut. exact Ha.
  - left. split; [reflexivity|]. apply SplitN_two_whole. exact Hs.
Qed.

(** What a successful decoding says about the path it decoded. *)
Lemma parseProxyPath_ok_inv (c : ascii) (rest : string) (r : resource) :
  parseProxyPath (String c rest) = Ret (r, true) ->
  exists tail,
    path r = String "/" tail /\
    rest = scheme (base r) +:+ "," +:+ host (base r) +:+ path r /\
    has_byte "," (scheme (base r)) = false /\
    has_byte "/" (scheme (base r)) = false /\
    has_byte "/" (host (base r)) = false.
Proof.
  unfold parseProxyPath. cbn [slice_from].
  destruct (SplitN_two_cases "/" rest) as [[_ ->] | (a & b & -> & Ha & ->)];
    [discriminate|].
  cbn [List.length Nat.eqb negb nth].
  destruct (SplitN_two_cases "," a) as [[_ ->] | (sc & ho & -> & Hsc & ->)];
    [discriminate|].
  cbn [List.length Nat.eqb negb nth]. intros [= <-].
  cbn [path base scheme host].
  rewrite has_byte_app in Ha. cbn [has_byte] in Ha.
  apply orb_false_iff in Ha. destruct Ha as [Hs Hh].
  change (has_byte "/" ho = false) in Hh.
  exists b. split; [reflexivity|]. split.
  - rewrite append_assoc. reflexivity.
  - split; [exact Hsc|]. split; [exact Hs | exact Hh].
Qed.

(** Decoding what encoding made, under what the code needs: a path that
    begins with ['/'], a scheme without [','] and ['/'], a host without
    ['/']. *)
Lemma parseProxyPath_of_parts (c : ascii) (sc ho tail : string) :
  has_byte "," sc = false -> has_byte "/" sc = false ->
  has_byte "/" ho = false ->
  parseProxyPath (String c (sc +:+ "," +:+ ho +:+ String "/" tail))
  = Ret (mk_resource (mk_urlBase sc ho) (String "/" tail), true).
Proof.
  intros Hcs Hss Hsh. unfold parseProxyPath. cbn [slice_from].
  replace (sc +:+ "," +:+ ho +:+ String "/" tail)
    with ((sc +:+ String "," ho) +:+ String "/" tail)
    by (rewrite append_assoc; reflexivity).
  rewrite SplitN_two_cut.
  2:{ rewrite has_byte_app. cbn [has_byte]. rewrite Hss, Hsh. reflexivity. }
  cbn [List.length Nat.eqb negb nth].
  rewrite (SplitN_two_cut "," sc ho Hcs). reflexivity.
Qed.

(** X1: [parseProxyPath] succeeds with resource [r] exactly on the paths
    that are one byte followed by [scheme,host] and a path that begins
    with ['/'], where the scheme has no [','] and no ['/'] and the host
    has no ['/'].  A [','] in the host and a path that begins with
    ["//"] decode as well. *)
Theorem parseProxyPath_ok_iff (c : ascii) (rest : string) (r : resource) :
  parseProxyPath (String c rest) = Ret (r, true) <->
  exists tail,
    path r = String "/" tail /\
    rest = scheme (base r) +:+ "," +:+ host (base r) +:+ path r /\
    has_byte "," (scheme (base r)) = false /\
    has_byte "/" (scheme (base r)) = false /\
    has_byte "/" (host (base r)) = false.
Proof.
  split; [apply parseProxyPath_ok_inv|].
  destruct r as [[sc ho] pa]. cbn [path base scheme host].
  intros (tail & -> & -> & Hcs & Hss & Hsh).
  apply parseProxyPath_of_parts; assumption.
Qed.

(** X2: encoding what decoded gives the path back, with ['/'] as its
    first byte: on the paths of requests, which begin with ['/'],
    [makeProxyPath] undoes [parseProxyPath]. *)
Theorem makeProxyPath_parseProxyPath (c : ascii) (rest : string) (r : resource) :
  parseProxyPath (String c rest) = Ret (r, true) ->
  makeProxyPath (scheme (base r)) (host (base r)) (path r) = String "/" rest.
Proof.
  intros Hparse.
  destruct (parseProxyPath_ok_inv c rest r Hparse) as (tail & _ & -> & _).
  reflexivity.
Qed.

Lemma makeProxyPath_parseProxyPath_witness :
  makeProxyPath "https" "origin.example,eu" "//a/b.mp4"
  = "/https,origin.example,eu//a/b.mp4".
Proof.
  apply (makeProxyPath_parseProxyPath "/" "https,origin.example,eu//a/b.mp4"
           (mk_resource (mk_urlBase "https" "origin.example,eu") "//a/b.mp4")).
  reflexivity.
Defined.

(** X3: the encoding of an origin with an empty path does not decode:
    the handler answers such a request with "invalid proxy path" and
    calls no origin. *)
Theorem handle_rejects_empty_resource_path (fuel : nat) (p : QcdnProxy)
    (net : network) (req : Request) (sc ho : string) :
  has_byte "/" sc = false -> has_byte "/" ho = false ->
  Path (rURL req) = makeProxyPath sc ho "" ->
  run_handle fuel p net req
  = Done tt (mk_hst p [HttpError "invalid proxy path" 500] [] []).
Proof.
  intros Hs Hh Hpath.
  apply handle_undecodable with (uri := zero_resource). rewrite Hpath.
  unfold makeProxyPath. rewrite append_cons, append_nil.
  apply parseProxyPath_no_second_slash.
  rewrite !has_byte_app. cbn [has_byte]. rewrite Hs, Hh.
  destruct ho; reflexivity.
Qed.

Lemma handle_rejects_empty_resource_path_witness :
  run_handle 11 Demo.proxy_ab Demo.net_all_ok (incoming "/http,a")
  = Done tt (mk_hst Demo.proxy_ab [HttpError "invalid proxy path" 500] [] []).
Proof.
  apply (handle_rejects_empty_resource_path 11 Demo.proxy_ab Demo.net_all_ok
           (incoming "/http,a") "http" "a"); reflexivity.
Defined.

Lemma parseProxyPath_ok_iff_witness :
  parseProxyPath "/https,origin.example,eu//a/b.mp4"
  = Ret (mk_resource (mk_urlBase "https" "origin.example,eu") "//a/b.mp4", true).
Proof.
  apply (proj2 (parseProxyPath_ok_iff "/" "https,origin.example,eu//a/b.mp4"
                  (mk_resource (mk_urlBase "https" "origin.example,eu")
                     "//a/b.mp4"))).
  exists "/a/b.mp4". repeat (split; [reflexivity|]). reflexivity.
Defined.

(** ** [copyHeader] and [serveRequest] *)

(** X4: [copyHeader] makes one [Add] per value of the source header and
    nothing else: a pair is added exactly when the source has it, and
    the number of calls is the number of values. *)
Theorem copyHeader_adds_each_value (src : list (string * list string)) :
  (forall ev, In ev (copyHeader src) <->
              exists k vv v, In (k, vv) src /\ In v vv /\ ev = HeaderAdd k v) /\
  List.length (copyHeader src)
  = list_sum (map (fun kv => List.length (snd kv)) src).
Proof.
  split.
  - intros ev. unfold copyHeader. rewrite in_flat_map. split.
    + intros ([k vv] & Hin & Hev). cbn [fst snd] in Hev.
      apply in_map_iff in Hev. destruct Hev as (v & <- & Hv).
      exists k, vv, v. split; [exact Hin|]. split; [exact Hv | reflexivity].
    + intros (k & vv & v & Hin & Hv & ->). exists (k, vv).
      split; [exact Hin|]. cbn [fst snd]. apply in_map. exact Hv.
  - induction src as [|[k vv] src IH]; [reflexivity|].
    unfold copyHeader in *. cbn [flat_map map list_sum fst snd].
    rewrite length_app, length_map, IH. reflexivity.
Qed.

Lemma copyHeader_adds_each_value_witness :
  In (HeaderAdd "Vary" "Origin")
     (copyHeader [("Content-Type", ["video/mp4"]); ("Vary", ["Accept"; "Origin"])]).
Proof.
  apply (proj1 (copyHeader_adds_each_value
                  [("Content-Type", ["video/mp4"]);
                   ("Vary", ["Accept"; "Origin"])])).
  exists "Vary", ["Accept"; "Origin"], "Origin".
  split; [right; left; reflexivity|].
  split; [right; left; reflexivity | reflexivity].
Defined.

(** A status is one of the 5xx exactly when Go's [StatusCode/100] is 5. *)
Lemma quot_100_is_5 (st : Z) : Z.quot st 100 = 5 <-> 500 <= st <= 599.
Proof.
  pose proof (Z.quot_rem' st 100) as Hqr.
  destruct (Z_le_gt_dec 0 st) as [Hpos|Hneg].
  - pose proof (Z.rem_bound_pos st 100 Hpos ltac:(lia)). lia.
  - pose proof (Z.rem_bound_pos_neg st 100 ltac:(lia) ltac:(lia)). lia.
Qed.

(** The client returns a response or an error. *)
Lemma do_loop_resp_or_err fuel check :
  forall net reqs req last sent resp err last' hops,
    do_loop fuel check net reqs req last sent = Some (resp, err, last', hops) ->
    err = None -> exists r, resp = Some r.
Proof.
  induction fuel as [|fuel IH]; intros net reqs req last sent resp err last' hops;
    [discriminate|].
  cbn [do_loop].
  destruct (net sent req) as [|r|r loc].
  - intros [= <- <- <- <-]. discriminate.
  - intros [= <- <- <- <-] _. eexists; reflexivity.
  - destruct (check _ _ last) as [[| |e] l1].
    + destruct (do_loop fuel _ _ _ _ _ _) as [[[[r2 e2] l2] h2]|] eqn:Hrec;
        [|discriminate].
      intros [= <- <- <- <-]. eapply IH. exact Hrec.
    + intros [= <- <- <- <-] _. eexists; reflexivity.
    + intros [= <- <- <- <-]. discriminate.
Qed.

(** What a finished [serveRequest] leaves: one more call on record, the
    proxy and the log as they were, and on the writer the response when
    it reports [true], nothing when it reports [false]. *)
Lemma serveRequest_inv fuel c net rq last s b l s1 :
  serveRequest fuel c net rq last s = Done (b, l) s1 ->
  exists a,
    a_client a = c /\ a_req a = rq /\ a_last a = l /\
    Client_Do fuel c net rq last (sent_of (h_calls s))
    = Some (a_resp a, a_err a, l, a_hops a) /\
    h_proxy s1 = h_proxy s /\ h_log s1 = h_log s /\
    h_calls s1 = h_calls s ++ [a] /\
    (if b
     then exists r, a_resp a = Some r /\ a_err a = None /\
                    ~ (500 <= StatusCode r <= 599) /\
                    h_w s1 = h_w s ++ stream r
     else h_w s1 = h_w s /\
          (a_err a <> None \/
           exists r, a_resp a = Some r /\ 500 <= StatusCode r <= 599)).
Proof.
  rewrite serveRequest_eq.
  destruct (Client_Do fuel c net rq last (sent_of (h_calls s)))
    as [[[[resp err] l0] hops]|] eqn:Hdo; [|discriminate].
  cbn zeta.
  destruct err as [e|].
  { intros [= <- <- <-]. exists (mk_attempt c rq hops resp (Some e) l0).
    cbn [a_client a_req a_resp a_err a_hops a_last h_proxy h_log h_calls h_w].
    do 7 (split; [reflexivity|]). split; [reflexivity|]. left. discriminate. }
  destruct (do_loop_resp_or_err _ _ _ _ _ _ _ _ _ _ _ Hdo eq_refl) as [r ->].
  destruct (Z.eqb_spec (Z.quot (StatusCode r) 100) 5) as [H5|H5]; cbn [negb];
    intros [= <- <- <-]; exists (mk_attempt c rq hops (Some r) None l0);
    cbn [a_client a_req a_resp a_err a_hops a_last h_proxy h_log h_calls h_w];
    do 7 (split; [reflexivity|]).
  - split; [reflexivity|]. right. exists r. split; [reflexivity|].
    apply quot_100_is_5. exact H5.
  - exists r. do 2 (split; [reflexivity|]). split; [|reflexivity].
    intros Hr. apply H5. apply quot_100_is_5. exact Hr.
Qed.

(** X5: [serveRequest] makes one client call and never touches the
    proxy; it reports [true] exactly when the call returned, without
    error, a response whose status is outside 500..599, and then that
    response is what it writes; otherwise it writes nothing. *)
Theorem serveRequest_writes_iff_served (fuel : nat) (c : Client) (net : network)
    (rq : Request) (last : option Request) (s : hst) (b : bool)
    (l : option Request) (s1 : hst) :
  serveRequest fuel c net rq last s = Done (b, l) s1 ->
  exists a,
    h_calls s1 = h_calls s ++ [a] /\ a_req a = rq /\
    h_proxy s1 = h_proxy s /\
    (b = true <->
     a_err a = None /\
     exists r, a_resp a = Some r /\ ~ (500 <= StatusCode r <= 599)) /\
    h_w s1 = h_w s ++ match b, a_resp a with
                      | true, Some r => stream r
                      | _, _ => []
                      end.
Proof.
  intros Hserve.
  destruct (serveRequest_inv _ _ _ _ _ _ _ _ _ Hserve)
    as (a & _ & Hreq & _ & _ & Hp & _ & Hcalls & Hb).
  exists a. do 3 (split; [assumption|]).
  destruct b.
  - destruct Hb as (r & Hr & He & H5 & Hw). rewrite Hr. split; [|exact Hw].
    split; [|reflexivity]. intros _. split; [exact He|].
    exists r. split; [reflexivity | exact H5].
  - destruct Hb as (Hw & Hfail). split; [|rewrite Hw, app_nil_r; reflexivity].
    split; [discriminate|]. intros (He & r & Hr & H5). exfalso.
    destruct Hfail as [Hne | (r' & Hr' & H5')]; [contradiction|].
    rewrite Hr in Hr'. injection Hr' as <-. contradiction.
Qed.

Lemma serveRequest_writes_iff_served_witness :
  exists a,
    h_calls Demo.after_failed_call = h_calls (mk_hst Demo.proxy_ab [] [] []) ++ [a] /\
    a_req a = Demo.req_ax /\
    h_proxy Demo.after_failed_call = h_proxy (mk_hst Demo.proxy_ab [] [] []) /\
    (false = true <->
     a_err a = None /\
     exists r, a_resp a = Some r /\ ~ (500 <= StatusCode r <= 599)) /\
    h_w Demo.after_failed_call
    = h_w (mk_hst Demo.proxy_ab [] [] [])
      ++ match false, a_resp a with
         | true, Some r => stream r
         | _, _ => []
         end.
Proof.
  apply (serveRequest_writes_iff_served 11 (mk_Client 0 None) Demo.net_a_down
           Demo.req_ax None (mk_hst Demo.proxy_ab [] [] []) false None
           Demo.after_failed_call).
  vm_compute. reflexivity.
Defined.

(** ** The handler, case by case *)

Lemma same_config_refl p : same_config p p.
Proof. repeat split. Qed.

Lemma same_config_setRedirect p q uri to :
  same_config p q -> same_config p (setRedirect q uri to).
Proof. intros H. exact H. Qed.

Lemma first_target_forwarded p req uri a :
  a_req a = snd (first_target p req uri) -> forwarded req a.
Proof.
  intros Hreq. unfold forwarded. rewrite Hreq. unfold first_target.
  destruct (redirects p !! uri); repeat split.
Qed.

Lemma retarget_forwarded req rq a pa sc ho :
  rRequestURI rq = "" ->
  RawQuery (rURL rq) = RawQuery (rURL req) ->
  Fragment (rURL rq) = Fragment (rURL req) ->
  a_req a = retarget rq pa sc ho -> forwarded req a.
Proof.
  intros Hu Hq Hf Hreq. unfold forwarded. rewrite Hreq.
  repeat split; assumption.
Qed.

Lemma first_target_client p req uri :
  fst (first_target p req uri) = client p \/
  fst (first_target p req uri) = with_CheckRedirect (client p) handle_CheckRedirect.
Proof.
  unfold first_target. destruct (redirects p !! uri); [left | right]; reflexivity.
Qed.

Lemma stream_not_nil w r : w ++ stream r <> [].
Proof.
  unfold stream. intros Habs. apply app_eq_nil in Habs. destruct Habs as [_ Habs].
  apply app_eq_nil in Habs. destruct Habs as [_ Habs]. discriminate.
Qed.

(** On a cache hit the first call is made with the proxy's client to the
    cached resource. *)
Lemma handle_hit_first_call fuel p net req uri to s' :
  parseProxyPath (Path (rURL req)) = Ret (uri, true) ->
  redirects p !! uri = Some to ->
  run_handle fuel p net req = Done tt s' ->
  exists a rest, h_calls s' = a :: rest /\ a_client a = client p /\
                 resource_of (rURL (a_req a)) = to.
Proof.
  intros Hparse Hhit.
  rewrite (handle_decoded _ _ _ _ _ Hparse), first_attempt_eq.
  pose proof (first_target_resource_hit p req uri to Hhit) as Htarget.
  assert (Hclient : fst (first_target p req uri) = client p).
  { unfold first_target. rewrite Hhit. reflexivity. }
  destruct (first_target p req uri) as [c req1]. cbn [fst snd] in *. subst c.
  destruct (serveRequest fuel (client p) net req1 None (mk_hst p [] [] []))
    as [[b l] s1|msg s1|] eqn:Hserve; [|discriminate ..].
  destruct (serveRequest_inv _ _ _ _ _ _ _ _ _ Hserve)
    as (a & Hc & Hreq & _ & _ & Hp & Hlog & Hcalls & _).
  cbn [h_calls h_proxy h_log app] in *. rewrite Hhit.
  destruct s1 as [p1 w1 calls1 lg1]. cbn [h_calls h_proxy h_log] in *.
  subst p1 lg1 calls1.
  destruct b.
  - intros [= <-]. exists a, []. split; [reflexivity|].
    split; [exact Hc | rewrite Hreq; exact Htarget].
  - destruct (strategies p !! base uri) as [st|] eqn:Hs.
    2:{ rewrite (backup_stage_no_strategy _ _ _ _ _ _ _ _ Hs).
        intros [= <-]. exists a, []. split; [reflexivity|].
        split; [exact Hc | rewrite Hreq; exact Htarget]. }
    destruct (String.eqb_spec (Host (rURL req1)) (host (backup st))) as [He|Hne].
    { rewrite (backup_stage_same_host _ _ _ _ _ _ _ _ _ Hs He).
      intros [= <-]. exists a, []. split; [reflexivity|].
      split; [exact Hc | rewrite Hreq; exact Htarget]. }
    rewrite (backup_stage_eq _ _ _ _ _ _ _ _ _ Hs Hne).
    destruct (serveRequest fuel (client p) net (retarget req1 _ _ _) _ _)
      as [[b2 l2] s2|msg s2|] eqn:Hserve2; [|discriminate ..].
    destruct (serveRequest_inv _ _ _ _ _ _ _ _ _ Hserve2)
      as (a2 & _ & _ & _ & _ & _ & _ & Hcalls2 & _).
    cbn [h_calls app] in Hcalls2.
    destruct b2; intros [= <-]; cbn [h_calls]; rewrite Hcalls2;
      exists a, [a2]; (split; [reflexivity|]);
      (split; [exact Hc | rewrite Hreq; exact Htarget]).
Qed.

(** X6: on a cache miss, when the call to the decoded origin followed a
    redirect and returned a response that is not a 5xx, the handler
    streams that response, stores [uri -> last URL fetched] in the cache
    and returns after this one call; the next request for the same
    resource makes its first call to the stored URL. *)
Theorem handle_miss_redirect_cached (fuel : nat) (p : QcdnProxy) (net : network)
    (req : Request) (uri : resource) (resp : Response) (l : Request)
    (hops : list Request) :
  let c1 := with_CheckRedirect (client p) handle_CheckRedirect in
  let req1 :=
    clear_RequestURI
      (retarget req (path uri) (scheme (base uri)) (host (base uri))) in
  let p' := setRedirect p uri (resource_of (rURL l)) in
  parseProxyPath (Path (rURL req)) = Ret (uri, true) ->
  redirects p !! uri = None ->
  Client_Do fuel c1 net req1 None [] = Some (Some resp, None, Some l, hops) ->
  Z.quot (StatusCode resp) 100 <> 5 ->
  run_handle fuel p net req
  = Done tt (mk_hst p' (stream resp)
               [mk_attempt c1 req1 hops (Some resp) None (Some l)]
               [(uri, resource_of (rURL l))]) /\
  List.last hops req1 = l /\ (1 < List.length hops)%nat /\
  (forall fuel' net' req' s',
      parseProxyPath (Path (rURL req')) = Ret (uri, true) ->
      run_handle fuel' p' net' req' = Done tt s' ->
      exists a rest, h_calls s' = a :: rest /\ a_client a = client p' /\
                     resource_of (rURL (a_req a)) = resource_of (rURL l)).
Proof.
  intros c1 req1 p' Hparse Hmiss Hdo H5.
  split; [|split; [|split]].
  - rewrite (handle_decoded _ _ _ _ _ Hparse), first_attempt_eq.
    unfold first_target. rewrite Hmiss. fold c1 req1.
    rewrite (serveRequest_served fuel c1 net req1 None (mk_hst p [] [] [])
               resp (Some l) hops Hdo H5).
    reflexivity.
  - unfold Client_Do, c1, checkRedirect, with_CheckRedirect in Hdo.
    cbn [CheckRedirect] in Hdo.
    destruct (do_loop_closure_last _ _ _ _ _ _ _ _ _ _ Hdo)
      as [[Habs _] | (r & [= <-] & _ & Hlast)]; [discriminate | exact Hlast].
  - unfold Client_Do, c1, checkRedirect, with_CheckRedirect in Hdo.
    cbn [CheckRedirect] in Hdo.
    destruct (do_loop_closure_last _ _ _ _ _ _ _ _ _ _ Hdo)
      as [[Habs _] | (r & _ & Hlen & _)]; [discriminate | exact Hlen].
  - intros fuel' net' req' s' Hparse' Hrun'.
    apply (handle_hit_first_call fuel' p' net' req' uri _ s' Hparse');
      [|exact Hrun'].
    unfold p', setRedirect, set_redirects. cbn [redirects].
    apply lookup_insert_eq.
Qed.

Lemma handle_miss_redirect_cached_witness :
  run_handle 11 Demo.proxy_b Demo.net_b_redirects (incoming "/http,b/x")
  = Done tt
      (mk_hst
         (setRedirect Demo.proxy_b (mk_resource Demo.origin_b "/x")
            (mk_resource Demo.origin_c "/y"))
         (stream (Demo.ok200 "moved"))
         [mk_attempt (mk_Client 0 (Some handle_CheckRedirect))
            (mk_Request (mk_URL "http" "b" "/x" "" "") "b" "")
            [mk_Request (mk_URL "http" "b" "/x" "" "") "b" "";
             mk_Request (mk_URL "http" "c" "/y" "" "") "" ""]
            (Some (Demo.ok200 "moved")) None
            (Some (mk_Request (mk_URL "http" "c" "/y" "" "") "" ""))]
         [(mk_resource Demo.origin_b "/x", mk_resource Demo.origin_c "/y")]).
Proof.
  apply (handle_miss_redirect_cached 11 Demo.proxy_b Demo.net_b_redirects
           (incoming "/http,b/x") (mk_resource Demo.origin_b "/x")
           (Demo.ok200 "moved")
           (mk_Request (mk_URL "http" "c" "/y" "" "") "" "")
           [mk_Request (mk_URL "http" "b" "/x" "" "") "b" "";
            mk_Request (mk_URL "http" "c" "/y" "" "") "" ""]).
  - reflexivity.
  - vm_compute. reflexivity.
  - vm_compute. reflexivity.
  - vm_compute. discriminate.
Defined.

(** The handler after a first attempt that was not served. *)
Lemma handle_first_failed fuel p net req uri resp1 err1 last1 hops1 :
  parseProxyPath (Path (rURL req)) = Ret (uri, true) ->
  Client_Do fuel (fst (first_target p req uri)) net
    (snd (first_target p req uri)) None []
  = Some (resp1, err1, last1, hops1) ->
  (err1 <> None \/ exists r, resp1 = Some r /\ Z.quot (StatusCode r) 100 = 5) ->
  run_handle fuel p net req
  = backup_stage fuel net (snd (first_target p req uri)) uri
      (mk_hst p []
         [mk_attempt (fst (first_target p req uri))
            (snd (first_target p req uri)) hops1 resp1 err1 last1] []).
Proof.
  intros Hparse Hdo Hfail.
  rewrite (handle_decoded _ _ _ _ _ Hparse), first_attempt_eq.
  destruct (first_target p req uri) as [c1 req1]. cbn [fst snd] in *.
  rewrite (serveRequest_failed fuel c1 net req1 None (mk_hst p [] [] [])
             resp1 err1 last1 hops1 Hdo Hfail).
  cbn [h_proxy h_w h_calls h_log app].
  destruct (redirects p !! uri); reflexivity.
Qed.

(** X7: when the first attempt failed and no strategy is stored for the
    decoded origin, the handler answers "url strategy not found" (500)
    after that one call and leaves the proxy as it was. *)
Theorem handle_no_strategy (fuel : nat) (p : QcdnProxy) (net : network)
    (req : Request) (uri : resource) (resp1 : option Response)
    (err1 : option string) (last1 : option Request) (hops1 : list Request) :
  let c1 := fst (first_target p req uri) in
  let req1 := snd (first_target p req uri) in
  parseProxyPath (Path (rURL req)) = Ret (uri, true) ->
  Client_Do fuel c1 net req1 None [] = Some (resp1, err1, last1, hops1) ->
  (err1 <> None \/ exists r, resp1 = Some r /\ Z.quot (StatusCode r) 100 = 5) ->
  strategies p !! base uri = None ->
  run_handle fuel p net req
  = Done tt (mk_hst p [HttpError "url strategy not found" 500]
               [mk_attempt c1 req1 hops1 resp1 err1 last1] []).
Proof.
  intros c1 req1 Hparse Hdo Hfail Hs.
  rewrite (handle_first_failed _ _ _ _ _ _ _ _ _ Hparse Hdo Hfail).
  rewrite (backup_stage_no_strategy _ _ _ _ _ _ _ _ Hs). reflexivity.
Qed.

Lemma handle_no_strategy_witness :
  run_handle 11 Demo.proxy_ab Demo.net_all_ok (incoming "/http,c/x")
  = Done tt
      (mk_hst Demo.proxy_ab [HttpError "url strategy not found" 500]
         [mk_attempt (mk_Client 0 (Some handle_CheckRedirect))
            (mk_Request (mk_URL "http" "c" "/x" "" "") "c" "")
            [mk_Request (mk_URL "http" "c" "/x" "" "") "c" ""]
            None (Some "send failed") None] []).
Proof.
  apply (handle_no_strategy 11 Demo.proxy_ab Demo.net_all_ok
           (incoming "/http,c/x") (mk_resource Demo.origin_c "/x")
           None (Some "send failed") None
           [mk_Request (mk_URL "http" "c" "/x" "" "") "c" ""]).
  - reflexivity.
  - vm_compute. reflexivity.
  - left. discriminate.
  - vm_compute. reflexivity.
Defined.

(** X8: when the first attempt failed and the call to the backup origin
    failed as well (error or 5xx), the handler answers "both main and
    backup server fail" (500); nothing of either answer is written and
    the cache is not written. *)
Theorem handle_both_fail (fuel : nat) (p : QcdnProxy) (net : network)
    (req : Request) (uri : resource) (s : urlStrategy)
    (resp1 resp2 : option Response) (err1 err2 : option string)
    (last1 last2 : option Request) (hops1 hops2 : list Request) :
  let c1 := fst (first_target p req uri) in
  let req1 := snd (first_target p req uri) in
  let req2 := retarget req1 (path uri) (scheme (backup s)) (host (backup s)) in
  parseProxyPath (Path (rURL req)) = Ret (uri, true) ->
  Client_Do fuel c1 net req1 None [] = Some (resp1, err1, last1, hops1) ->
  (err1 <> None \/ exists r, resp1 = Some r /\ Z.quot (StatusCode r) 100 = 5) ->
  strategies p !! base uri = Some s ->
  Host (rURL req1) <> host (backup s) ->
  Client_Do fuel (client p) net req2 None hops1
  = Some (resp2, err2, last2, hops2) ->
  (err2 <> None \/ exists r, resp2 = Some r /\ Z.quot (StatusCode r) 100 = 5) ->
  run_handle fuel p net req
  = Done tt (mk_hst p [HttpError "both main and backup server fail" 500]
               [mk_attempt c1 req1 hops1 resp1 err1 last1;
                mk_attempt (client p) req2 hops2 resp2 err2 last2] []).
Proof.
  intros c1 req1 req2 Hparse Hdo1 Hfail1 Hs Hne Hdo2 Hfail2.
  rewrite (handle_first_failed _ _ _ _ _ _ _ _ _ Hparse Hdo1 Hfail1).
  fold c1 req1. rewrite (backup_stage_eq _ _ _ _ _ _ _ _ _ Hs Hne). fold req2.
  rewrite (serveRequest_failed fuel (client p) net req2 None _ resp2 err2 last2
             hops2); [reflexivity | | exact Hfail2].
  cbn [h_calls sent_of flat_map a_hops]. rewrite app_nil_r. exact Hdo2.
Qed.

Lemma handle_both_fail_witness :
  run_handle 11 Demo.proxy_ab Demo.net_all_down (incoming "/http,a/x")
  = Done tt
      (mk_hst Demo.proxy_ab [HttpError "both main and backup server fail" 500]
         [mk_attempt (mk_Client 0 (Some handle_CheckRedirect)) Demo.req_ax
            [Demo.req_ax] None (Some "send failed") None;
          mk_attempt (mk_Client 0 None)
            (mk_Request (mk_URL "http" "b" "/x" "" "") "b" "")
            [mk_Request (mk_URL "http" "b" "/x" "" "") "b" ""]
            (Some (mk_Response 503 [] "busy")) None None] []).
Proof.
  apply (handle_both_fail 11 Demo.proxy_ab Demo.net_all_down
           (incoming "/http,a/x") (mk_resource Demo.origin_a "/x")
           (mk_urlStrategy Demo.origin_b zero_urlBase)
           None (Some (mk_Response 503 [] "busy")) (Some "send failed") None
           None None [Demo.req_ax]
           [mk_Request (mk_URL "http" "b" "/x" "" "") "b" ""]).
  - reflexivity.
  - vm_compute. reflexivity.
  - left. discriminate.
  - vm_compute. reflexivity.
  - vm_compute. discriminate.
  - vm_compute. reflexivity.
  - right. eexists. split; reflexivity.
Defined.

(** X9: the backup is compared with the attempted target by host alone:
    when the stored backup has the host that was just tried, whatever
    its scheme, a failed first attempt is followed by no backup call and
    the handler answers "both main and backup server fail" (500). *)
Theorem handle_backup_same_host_skipped (fuel : nat) (p : QcdnProxy)
    (net : network) (req : Request) (uri : resource) (s : urlStrategy)
    (resp1 : option Response) (err1 : option string)
    (last1 : option Request) (hops1 : list Request) :
  let c1 := fst (first_target p req uri) in
  let req1 := snd (first_target p req uri) in
  parseProxyPath (Path (rURL req)) = Ret (uri, true) ->
  Client_Do fuel c1 net req1 None [] = Some (resp1, err1, last1, hops1) ->
  (err1 <> None \/ exists r, resp1 = Some r /\ Z.quot (StatusCode r) 100 = 5) ->
  strategies p !! base uri = Some s ->
  Host (rURL req1) = host (backup s) ->
  run_handle fuel p net req
  = Done tt (mk_hst p [HttpError "both main and backup server fail" 500]
               [mk_attempt c1 req1 hops1 resp1 err1 last1] []).
Proof.
  intros c1 req1 Hparse Hdo Hfail Hs He.
  rewrite (handle_first_failed _ _ _ _ _ _ _ _ _ Hparse Hdo Hfail).
  rewrite (backup_stage_same_host _ _ _ _ _ _ _ _ _ Hs He). reflexivity.
Qed.

Lemma handle_backup_same_host_skipped_witness :
  run_handle 11 Demo.proxy_a_https Demo.net_a_down (incoming "/http,a/x")
  = Done tt
      (mk_hst Demo.proxy_a_https
         [HttpError "both main and backup server fail" 500]
         [mk_attempt (mk_Client 0 (Some handle_CheckRedirect)) Demo.req_ax
            [Demo.req_ax] (Some (mk_Response 500 [] "fail")) None None] []).
Proof.
  apply (handle_backup_same_host_skipped 11 Demo.proxy_a_https Demo.net_a_down
           (incoming "/http,a/x") (mk_resource Demo.origin_a "/x")
           (mk_urlStrategy (mk_urlBase "https" "a") zero_urlBase)
           (Some (mk_Response 500 [] "fail")) None None [Demo.req_ax]).
  - reflexivity.
  - vm_compute. reflexivity.
  - right. eexists. split; reflexivity.
  - vm_compute. reflexivity.
  - reflexivity.
Defined.

(** ** What every run of the handler has in common *)

Lemma made_by_serveRequest fuel p net req c rq s b l s1 :
  serveRequest fuel c net rq None s = Done (b, l) s1 ->
  (c = client p \/ c = with_CheckRedirect (client p) handle_CheckRedirect) ->
  (forall a, a_req a = rq -> forwarded req a) ->
  exists a, h_calls s1 = h_calls s ++ [a] /\ made_by fuel p net req a /\
            h_proxy s1 = h_proxy s /\ h_log s1 = h_log s /\
            (if b then h_w s1 <> [] else h_w s1 = h_w s).
Proof.
  intros Hserve Hc Hfwd.
  destruct (serveRequest_inv _ _ _ _ _ _ _ _ _ Hserve)
    as (a & Hca & Hreq & Hlast & Hdo & Hp & Hlog & Hcalls & Hb).
  exists a. split; [exact Hcalls|]. split.
  - split; [apply Hfwd; exact Hreq|]. split; [rewrite Hca; exact Hc|].
    exists (sent_of (h_calls s)). rewrite Hca, Hreq, Hlast. exact Hdo.
  - split; [exact Hp|]. split; [exact Hlog|].
    destruct b.
    + destruct Hb as (r & _ & _ & _ & ->). apply stream_not_nil.
    + exact (proj1 Hb).
Qed.

(** The backup stage always writes, keeps the configuration, and makes
    at most one call. *)
Lemma backup_stage_summary fuel net req rq uri p w calls lg s2 :
  rRequestURI rq = "" ->
  RawQuery (rURL rq) = RawQuery (rURL req) ->
  Fragment (rURL rq) = Fragment (rURL req) ->
  backup_stage fuel net rq uri (mk_hst p w calls lg) = Done tt s2 ->
  h_w s2 <> [] /\ same_config p (h_proxy s2) /\
  (h_calls s2 = calls \/
   exists a, h_calls s2 = calls ++ [a] /\ made_by fuel p net req a).
Proof.
  intros Hu Hq Hf.
  destruct (strategies p !! base uri) as [st|] eqn:Hs.
  2:{ rewrite (backup_stage_no_strategy _ _ _ _ _ _ _ _ Hs). intros [= <-].
      cbn [h_w h_proxy h_calls]. split; [intros Habs; destruct w; discriminate|].
      split; [apply same_config_refl | left; reflexivity]. }
  destruct (String.eqb_spec (Host (rURL rq)) (host (backup st))) as [He|Hne].
  { rewrite (backup_stage_same_host _ _ _ _ _ _ _ _ _ Hs He). intros [= <-].
    cbn [h_w h_proxy h_calls]. split; [intros Habs; destruct w; discriminate|].
    split; [apply same_config_refl | left; reflexivity]. }
  rewrite (backup_stage_eq _ _ _ _ _ _ _ _ _ Hs Hne).
  destruct (serveRequest fuel (client p) net (retarget rq _ _ _) None _)
    as [[b l] s1|msg s1|] eqn:Hserve; [|discriminate ..].
  destruct (made_by_serveRequest fuel p net req _ _ _ _ _ _ Hserve)
    as (a & Hcalls & Hmade & Hp & _ & Hw).
  { left. reflexivity. }
  { intros a Ha. eapply retarget_forwarded; eassumption. }
  cbn [h_calls h_proxy] in Hcalls, Hp.
  destruct b; intros [= <-]; cbn [h_w h_proxy h_calls].
  - split; [exact Hw|]. rewrite Hp.
    split; [apply same_config_setRedirect, same_config_refl|].
    right. exists a. split; assumption.
  - split; [intros Habs; destruct (h_w s1); discriminate|]. rewrite Hp.
    split; [apply same_config_refl|]. right. exists a. split; assumption.
Qed.

(** Every finished run: something was written, the configuration is
    kept, at most two calls were made and each is on record as made. *)
Lemma run_handle_summary fuel p net req s' :
  run_handle fuel p net req = Done tt s' ->
  h_w s' <> [] /\ same_config p (h_proxy s') /\
  (List.length (h_calls s') <= 2)%nat /\
  Forall (made_by fuel p net req) (h_calls s').
Proof.
  destruct (parseProxyPath (Path (rURL req))) as [[uri [|]]|msg] eqn:Hparse.
  - rewrite (handle_decoded _ _ _ _ _ Hparse), first_attempt_eq.
    pose proof (first_target_client p req uri) as Hc.
    pose proof (first_target_forwarded p req uri) as Hfwd.
    destruct (first_target p req uri) as [c1 req1] eqn:Htarget.
    cbn [fst snd] in Hc, Hfwd.
    destruct (serveRequest fuel c1 net req1 None (mk_hst p [] [] []))
      as [[b l] s1|msg s1|] eqn:Hserve; [|discriminate ..].
    destruct (made_by_serveRequest fuel p net req _ _ _ _ _ _ Hserve Hc Hfwd)
      as (a & Hcalls & Hmade & Hp & Hlog & Hw).
    destruct s1 as [p1 w1 calls1 lg1].
    cbn [h_calls h_proxy h_log h_w app] in Hcalls, Hp, Hlog, Hw.
    subst p1 lg1 calls1.
    assert (Hreq1 : rRequestURI req1 = "" /\
                    RawQuery (rURL req1) = RawQuery (rURL req) /\
                    Fragment (rURL req1) = Fragment (rURL req)).
    { unfold first_target in Htarget.
      destruct (redirects p !! uri); injection Htarget as <- <-;
        repeat split. }
    destruct Hreq1 as (Hu & Hq & Hf).
    assert (Hback : backup_stage fuel net req1 uri (mk_hst p w1 [a] []) = Done tt s' ->
              h_w s' <> [] /\ same_config p (h_proxy s') /\
              (List.length (h_calls s') <= 2)%nat /\
              Forall (made_by fuel p net req) (h_calls s')).
    { intros Hstage.
      destruct (backup_stage_summary _ _ req _ _ _ _ _ _ _ Hu Hq Hf Hstage)
        as (Hw2 & Hcfg & [-> | (a2 & -> & Hmade2)]).
      - split; [exact Hw2|]. split; [exact Hcfg|]. split; [simpl; lia|].
        constructor; [exact Hmade | constructor].
      - split; [exact Hw2|]. split; [exact Hcfg|]. split; [simpl; lia|].
        constructor; [exact Hmade|]. constructor; [exact Hmade2 | constructor]. }
    assert (Hdone : forall q lg, same_config p q -> b = true ->
              Done tt (mk_hst q w1 [a] lg) = Done (A:=unit) tt s' ->
              h_w s' <> [] /\ same_config p (h_proxy s') /\
              (List.length (h_calls s') <= 2)%nat /\
              Forall (made_by fuel p net req) (h_calls s')).
    { intros q lg Hcfg Hb [= <-]. subst b. cbn [h_w h_proxy h_calls].
      split; [exact Hw|]. split; [exact Hcfg|]. split; [simpl; lia|].
      constructor; [exact Hmade | constructor]. }
    destruct (redirects p !! uri) as [to|].
    + destruct b; [|exact Hback].
      apply (Hdone p [] (same_config_refl p) eq_refl).
    + destruct b; [destruct l as [lr|]|]; [|exact Hback ..].
      cbn [h_proxy h_w h_calls h_log].
      apply (Hdone _ _ (same_config_setRedirect p p _ _ (same_config_refl p))
               eq_refl).
  - rewrite (handle_undecodable _ _ _ _ _ Hparse). intros [= <-].
    cbn [h_w h_proxy h_calls]. split; [discriminate|].
    split; [apply same_config_refl|]. split; [simpl; lia | constructor].
  - unfold run_handle, handle, mbind, H_bind, bindH, liftH. rewrite Hparse.
    discriminate.
Qed.

Lemma made_by_hops_bound fuel p net req a :
  CheckRedirect (client p) = None -> made_by fuel p net req a ->
  (List.length (a_hops a) <= 10)%nat.
Proof.
  intros Hnil (_ & Hc & sent & Hdo). unfold Client_Do in Hdo.
  assert (Hb : bounded_policy (checkRedirect (a_client a))).
  { destruct Hc as [-> | ->]; unfold checkRedirect.
    - rewrite Hnil. exact defaultCheckRedirect_bounded.
    - exact handle_CheckRedirect_bounded. }
  apply (do_loop_hops_bound _ Hb) in Hdo; cbn [List.length] in *; lia.
Qed.

(** X10: a run of the handler makes at most two client calls and sends
    at most twenty upstream requests, ten per call; every call forwards
    the query and fragment of the incoming request, with an empty
    [RequestURI] and the [Host] field set to the host of its target. *)
Theorem handle_upstream_budget (fuel : nat) (p : QcdnProxy) (net : network)
    (req : Request) (s' : hst) :
  CheckRedirect (client p) = None ->
  run_handle fuel p net req = Done tt s' ->
  (List.length (h_calls s') <= 2)%nat /\
  Forall (fun a => forwarded req a /\ (List.length (a_hops a) <= 10)%nat)
    (h_calls s') /\
  (List.length (sent_of (h_calls s')) <= 20)%nat.
Proof.
  intros Hnil Hrun.
  destruct (run_handle_summary _ _ _ _ _ Hrun) as (_ & _ & Hlen & Hall).
  split; [exact Hlen|].
  assert (Hall' : Forall (fun a => forwarded req a /\
                                   (List.length (a_hops a) <= 10)%nat)
                    (h_calls s')).
  { eapply List.Forall_impl; [|exact Hall]. intros a Ha.
    split; [exact (proj1 Ha)|].
    eapply made_by_hops_bound; eassumption. }
  split; [exact Hall'|].
  destruct (h_calls s') as [|a1 [|a2 [|a3 rest]]]; cbn [sent_of flat_map].
  - simpl. lia.
  - inversion Hall' as [|? ? [_ H1] _]; subst. rewrite app_nil_r. lia.
  - inversion Hall' as [|? ? [_ H1] Hrest]; subst.
    inversion Hrest as [|? ? [_ H2] _]; subst.
    rewrite app_nil_r, length_app. lia.
  - simpl in Hlen. lia.
Qed.

Lemma handle_upstream_budget_witness :
  (List.length (h_calls Demo.served_by_backup) <= 2)%nat /\
  Forall (fun a => forwarded (incoming "/http,a/x") a /\
                   (List.length (a_hops a) <= 10)%nat)
    (h_calls Demo.served_by_backup) /\
  (List.length (sent_of (h_calls Demo.served_by_backup)) <= 20)%nat.
Proof.
  apply (handle_upstream_budget 11 Demo.proxy_ab Demo.net_a_down
           (incoming "/http,a/x") Demo.served_by_backup).
  - reflexivity.
  - vm_compute. reflexivity.
Defined.

(** X11: a run of the handler that returns has written to the response
    writer, a streamed response or an error, and has changed nothing of
    the proxy but, at most, its redirect cache. *)
Theorem handle_always_answers (fuel : nat) (p : QcdnProxy) (net : network)
    (req : Request) (s' : hst) :
  run_handle fuel p net req = Done tt s' ->
  h_w s' <> [] /\ same_config p (h_proxy s').
Proof.
  intros Hrun.
  destruct (run_handle_summary _ _ _ _ _ Hrun) as (Hw & Hcfg & _).
  split; assumption.
Qed.

Lemma handle_always_answers_witness :
  h_w Demo.served_by_backup <> [] /\
  same_config Demo.proxy_ab (h_proxy Demo.served_by_backup).
Proof.
  apply (handle_always_answers 11 Demo.proxy_ab Demo.net_a_down
           (incoming "/http,a/x") Demo.served_by_backup).
  vm_compute. reflexivity.
Defined.

(** ** Termination of the handler *)







(** ** Configuration: [SetStrategy], [MakeVodURL], [getProxyHost], [Close] *)

Section Configuration.
Context `{NetURL}.

Lemma urlBaseOf_ok_iff (u : string) (b : urlBase) :
  urlBaseOf u = Ret b <->
  exists url, pathless u url /\ b = mk_urlBase (Scheme url) (Host url).
Proof.
  unfold urlBaseOf, pathless. split.
  - destruct (url_Parse u) as [url|]; [|discriminate].
    destruct (String.eqb_spec (Path url) ""); cbn [negb]; [|discriminate].
    intros [= <-]. exists url. repeat split. assumption.
  - intros (url & [-> Hp] & ->). rewrite Hp. reflexivity.
Qed.

(** X13: [SetStrategy] returns exactly when its three strings parse to
    URLs without a path, and then it has stored, under the origin's
    scheme and host, the scheme and host of the backup and of the boot
    URL, leaving the other strategies and the cache as they were; a nil
    strategy pointer panics. *)
Theorem SetStrategy_ok_iff (p p' : QcdnProxy) (urlBase_ : string)
    (s : QcdnStrategy) :
  (SetStrategy p urlBase_ (Some s) = (Ret tt, p') <->
   exists uo ub ut,
     pathless urlBase_ uo /\ pathless (Backup s) ub /\ pathless (Boot s) ut /\
     p' = set_strategies p
            (<[mk_urlBase (Scheme uo) (Host uo) :=
                 mk_urlStrategy (mk_urlBase (Scheme ub) (Host ub))
                   (mk_urlBase (Scheme ut) (Host ut))]> (strategies p))) /\
  (SetStrategy p urlBase_ (Some s) = (Ret tt, p') ->
   redirects p' = redirects p /\
   forall uo, pathless urlBase_ uo ->
     is_Some (strategies p' !! mk_urlBase (Scheme uo) (Host uo)) /\
     forall k, k <> mk_urlBase (Scheme uo) (Host uo) ->
               strategies p' !! k = strategies p !! k) /\
  fst (SetStrategy p urlBase_ None) <> Ret tt.
Proof.
  assert (Hfwd : SetStrategy p urlBase_ (Some s) = (Ret tt, p') ->
            exists uo ub ut,
              pathless urlBase_ uo /\ pathless (Backup s) ub /\
              pathless (Boot s) ut /\
              p' = set_strategies p
                     (<[mk_urlBase (Scheme uo) (Host uo) :=
                          mk_urlStrategy (mk_urlBase (Scheme ub) (Host ub))
                            (mk_urlBase (Scheme ut) (Host ut))]>
                        (strategies p))).
  { unfold SetStrategy.
    destruct (urlBaseOf urlBase_) as [b0|] eqn:E0; [|discriminate].
    destruct (urlBaseOf (Backup s)) as [b1|] eqn:E1; [|discriminate].
    destruct (urlBaseOf (Boot s)) as [b2|] eqn:E2; [|discriminate].
    apply urlBaseOf_ok_iff in E0, E1, E2.
    destruct E0 as (uo & Ho & ->), E1 as (ub & Hb & ->), E2 as (ut & Ht & ->).
    intros [= <-]. exists uo, ub, ut.
    split; [exact Ho|]. split; [exact Hb|]. split; [exact Ht|]. reflexivity. }
  split; [split; [exact Hfwd|]|split].
  - intros (uo & ub & ut & Ho & Hb & Ht & ->). unfold SetStrategy.
    rewrite (proj2 (urlBaseOf_ok_iff _ _) (ex_intro _ uo (conj Ho eq_refl))).
    rewrite (proj2 (urlBaseOf_ok_iff _ _) (ex_intro _ ub (conj Hb eq_refl))).
    rewrite (proj2 (urlBaseOf_ok_iff _ _) (ex_intro _ ut (conj Ht eq_refl))).
    reflexivity.
  - intros Hok. destruct (Hfwd Hok) as (uo & ub & ut & [Ho _] & _ & _ & ->).
    split; [reflexivity|]. intros uo' [Ho' _]. rewrite Ho in Ho'.
    injection Ho' as <-. cbn [set_strategies strategies]. split.
    + rewrite lookup_insert_eq. eexists; reflexivity.
    + intros k Hk. apply lookup_insert_ne. congruence.
  - unfold SetStrategy. destruct (urlBaseOf urlBase_); discriminate.
Qed.

Lemma getProxyHost_strategies srv p :
  strategies (snd (getProxyHost srv p)) = strategies p.
Proof. unfold getProxyHost. destruct (init p); reflexivity. Qed.

(** X14: for a URL whose origin has a strategy, [MakeVodURL] returns the
    URL with scheme [http], the proxy's host, the path
    [makeProxyPath(scheme, host, path)] and the query and fragment of
    the original; when the original path begins with ['/'] and scheme
    and host are free of ['/'] (the scheme of [','] too), the handler's
    decoder gives the original resource back from that path. *)
Theorem MakeVodURL_governed_decodes (srvURL : string) (p : QcdnProxy)
    (urlVod : string) (bootLen : Z) (url : URL) (st : urlStrategy) :
  url_Parse urlVod = Some url ->
  strategies p !! mk_urlBase (Scheme url) (Host url) = Some st ->
  let proxied :=
    mk_URL "http" (fst (getProxyHost srvURL p))
      (makeProxyPath (Scheme url) (Host url) (Path url))
      (RawQuery url) (Fragment url) in
  MakeVodURL srvURL p urlVod bootLen
  = (url_String proxied, snd (getProxyHost srvURL p)) /\
  (String.prefix "/" (Path url) = true ->
   has_byte "," (Scheme url) = false -> has_byte "/" (Scheme url) = false ->
   has_byte "/" (Host url) = false ->
   parseProxyPath (Path proxied) = Ret (resource_of url, true)).
Proof.
  intros Hparse Hs proxied. split.
  - unfold MakeVodURL. rewrite Hparse, Hs.
    destruct (getProxyHost srvURL p) as [ph p1]. reflexivity.
  - intros Hp Hcs Hss Hsh. cbn [proxied Path].
    destruct (Path url) as [|c tail] eqn:Hpath; [discriminate|].
    rewrite prefix_byte_cons in Hp. apply Ascii.eqb_eq in Hp. subst c.
    unfold makeProxyPath, resource_of. rewrite Hpath, append_cons, append_nil.
    apply parseProxyPath_of_parts; assumption.
Qed.

(** X15: the endpoint is started at most once: after a first
    [getProxyHost] every later call, whatever address a new server would
    get, returns the same host and changes nothing; [MakeVodURL]
    therefore gives the same URL each time it is asked for the same
    one. *)
Theorem MakeVodURL_stable (srvURL srvURL' : string) (p : QcdnProxy)
    (urlVod : string) (bootLen bootLen' : Z) :
  getProxyHost srvURL' (snd (getProxyHost srvURL p)) = getProxyHost srvURL p /\
  init (snd (getProxyHost srvURL p)) = true /\
  (init p = false ->
   getProxyHost srvURL p
   = (TrimPrefix srvURL "http://",
      mk_QcdnProxy (TrimPrefix srvURL "http://") (Some srvURL) true
        (strategies p) (redirects p) (client p))) /\
  MakeVodURL srvURL' (snd (MakeVodURL srvURL p urlVod bootLen)) urlVod bootLen'
  = MakeVodURL srvURL p urlVod bootLen.
Proof.
  assert (Honce : forall q srv srv',
            getProxyHost srv' (snd (getProxyHost srv q)) = getProxyHost srv q).
  { intros q srv srv'. unfold getProxyHost.
    destruct (init q) eqn:Hi; cbn [snd init proxyHost]; [rewrite Hi|];
      reflexivity. }
  split; [apply Honce|]. split; [|split].
  - unfold getProxyHost. destruct (init p) eqn:Hi; [exact Hi | reflexivity].
  - intros Hi. unfold getProxyHost. rewrite Hi. reflexivity.
  - unfold MakeVodURL.
    destruct (url_Parse urlVod) as [url|] eqn:Hparse; [|reflexivity].
    destruct (strategies p !! mk_urlBase (Scheme url) (Host url)) as [st|] eqn:Hs.
    2:{ cbn [snd]. rewrite Hs. reflexivity. }
    pose proof (Honce p srvURL srvURL') as Hsame.
    pose proof (getProxyHost_strategies srvURL p) as Hstrat.
    destruct (getProxyHost srvURL p) as [ph p1]. cbn [snd] in *.
    rewrite Hstrat, Hs, Hsame. reflexivity.
Qed.

(** X16: [Close] forgets the server and nothing else: closing twice is
    closing once, closing a proxy that never started is no change, and,
    the once-guard staying spent, [MakeVodURL] after [Close] still
    returns URLs on the closed endpoint and starts no new server. *)
Theorem Close_keeps_endpoint_address (srvURL srvURL' : string) (p : QcdnProxy)
    (urlVod : string) (bootLen : Z) :
  Close (Close p) = Close p /\
  server (Close p) = None /\
  (server p = None -> Close p = p) /\
  redirects (Close p) = redirects p /\ strategies (Close p) = strategies p /\
  (init p = true ->
   MakeVodURL srvURL' (Close p) urlVod bootLen
   = (fst (MakeVodURL srvURL p urlVod bootLen), Close p)).
Proof.
  split; [|split; [|split; [|split; [|split]]]].
  - unfold Close. destruct (server p) eqn:Hs; cbn [server]; [reflexivity|].
    rewrite Hs. reflexivity.
  - unfold Close. destruct (server p) eqn:Hs; [reflexivity | exact Hs].
  - intros Hs. unfold Close. rewrite Hs. reflexivity.
  - unfold Close. destruct (server p); reflexivity.
  - unfold Close. destruct (server p); reflexivity.
  - intros Hi. unfold MakeVodURL.
    destruct (url_Parse urlVod) as [url|]; [|reflexivity].
    assert (Hst : strategies (Close p) = strategies p)
      by (unfold Close; destruct (server p); reflexivity).
    rewrite Hst. destruct (strategies p !! _); [|reflexivity].
    assert (Hg : getProxyHost srvURL' (Close p) = (proxyHost p, Close p)).
    { unfold getProxyHost, Close. destruct (server p); cbn [init proxyHost];
        rewrite Hi; reflexivity. }
    rewrite Hg. unfold getProxyHost. rewrite Hi. reflexivity.
Qed.

End Configuration.

Lemma SetStrategy_ok_iff_witness :
  SetStrategy (NewQcdnProxy None) "http://a"
    (Some (mk_QcdnStrategy "http://b" "")) = (Ret tt, Demo.proxy_ab).
Proof.
  apply (proj2 (proj1 (SetStrategy_ok_iff (NewQcdnProxy None) Demo.proxy_ab
                         "http://a" (mk_QcdnStrategy "http://b" "")))).
  exists (mk_URL "http" "a" "" "" ""), (mk_URL "http" "b" "" "" ""),
    (mk_URL "" "" "" "" "").
  split; [split; reflexivity|]. split; [split; reflexivity|].
  split; [split; reflexivity|]. reflexivity.
Defined.

Lemma MakeVodURL_governed_decodes_witness :
  MakeVodURL "http://127.0.0.1:4000" Demo.proxy_ab "http://a/video.mp4" 0
  = ("http://127.0.0.1:4000/http,a/video.mp4",
     snd (getProxyHost "http://127.0.0.1:4000" Demo.proxy_ab))
  /\ parseProxyPath "/http,a/video.mp4"
     = Ret (mk_resource Demo.origin_a "/video.mp4", true).
Proof.
  pose proof (MakeVodURL_governed_decodes "http://127.0.0.1:4000" Demo.proxy_ab
                "http://a/video.mp4" 0 (mk_URL "http" "a" "/video.mp4" "" "")
                (mk_urlStrategy Demo.origin_b zero_urlBase)
                eq_refl eq_refl) as [Hurl Hdec].
  split; [exact Hurl|].
  apply Hdec; reflexivity.
Defined.

Lemma Close_keeps_endpoint_address_witness :
  MakeVodURL "http://127.0.0.1:5000"
    (Close (snd (MakeVodURL "http://127.0.0.1:4000" Demo.proxy_ab
                   "http://a/video.mp4" 0)))
    "http://a/video.mp4" 0
  = ("http://127.0.0.1:4000/http,a/video.mp4",
     Close (snd (MakeVodURL "http://127.0.0.1:4000" Demo.proxy_ab
                   "http://a/video.mp4" 0))).
Proof.
  pose proof (Close_keeps_endpoint_address "http://127.0.0.1:4000"
                "http://127.0.0.1:5000"
                (snd (MakeVodURL "http://127.0.0.1:4000" Demo.proxy_ab
                        "http://a/video.mp4" 0))
                "http://a/video.mp4" 0) as (_ & _ & _ & _ & _ & Hmk).
  rewrite (Hmk eq_refl). reflexivity.
Defined.

Lemma MakeVodURL_stable_witness :
  MakeVodURL "http://127.0.0.1:5000"
    (snd (MakeVodURL "http://127.0.0.1:4000" Demo.proxy_ab
            "http://a/video.mp4" 0))
    "http://a/video.mp4" 7
  = MakeVodURL "http://127.0.0.1:4000" Demo.proxy_ab "http://a/video.mp4" 0
  /\ getProxyHost "http://127.0.0.1:4000" Demo.proxy_ab
     = ("127.0.0.1:4000",
        mk_QcdnProxy "127.0.0.1:4000" (Some "http://127.0.0.1:4000") true
          (strategies Demo.proxy_ab) (redirects Demo.proxy_ab)
          (client Demo.proxy_ab)).
Proof.
  pose proof (MakeVodURL_stable "http://127.0.0.1:4000" "http://127.0.0.1:5000"
                Demo.proxy_ab "http://a/video.mp4" 0 7)
    as (_ & _ & Hfirst & Hsame).
  split; [exact Hsame | exact (Hfirst eq_refl)].
Defined.

(** ** [NewQcdnProxy] and the redirect cache *)

(** X17: a new proxy has no strategy, an empty cache and no server; its
    client has the default redirect policy and, for a timeout of up to
    9223372036854 ms in absolute value, the timeout in nanoseconds;
    beyond that the conversion to [time.Duration] wraps around.  A nil
    configuration means no timeout. *)
Theorem NewQcdnProxy_fresh (t : Z) :
  let p := NewQcdnProxy (Some (mk_QcdnConfig t)) in
  strategies p = ∅ /\ redirects p = ∅ /\ server p = None /\ init p = false /\
  CheckRedirect (client p) = None /\
  (- 9223372036854 <= t <= 9223372036854 ->
   Timeout (client p) = t * 1000000) /\
  (9223372036854 < t < 18446744073709 -> Timeout (client p) < 0) /\
  Timeout (client (NewQcdnProxy None)) = 0.
Proof.
  cbv zeta. cbn [NewQcdnProxy strategies redirects server init client
                   CheckRedirect Timeout conf_Timeout].
  do 5 (split; [reflexivity|]). unfold wrap64.
  split; [|split; [|reflexivity]]; intros Ht.
  - rewrite Z.mod_small; lia.
  - rewrite <- (Z.mod_add _ (-1)) by lia.
    rewrite Z.mod_small; lia.
Qed.

Lemma NewQcdnProxy_fresh_witness :
  Timeout (client (NewQcdnProxy (Some (mk_QcdnConfig 3000)))) = 3000000000.
Proof.
  pose proof (NewQcdnProxy_fresh 3000) as (_ & _ & _ & _ & _ & Ht & _).
  apply Ht. lia.
Defined.

(** X18: the redirect cache is a map with last-write-wins entries:
    [redirectOf] returns what the last [setRedirect] for the key stored,
    [setRedirect] leaves the other keys and the rest of the proxy alone,
    and a key never set reads as the zero resource with [ok = false]. *)
Theorem redirect_cache_round_trip (p : QcdnProxy) (uri to to' k : resource) :
  redirectOf (setRedirect p uri to) uri = (to, true) /\
  (k <> uri -> redirectOf (setRedirect p uri to) k = redirectOf p k) /\
  setRedirect (setRedirect p uri to) uri to' = setRedirect p uri to' /\
  (redirects p !! k = None -> redirectOf p k = (zero_resource, false)) /\
  redirectOf (NewQcdnProxy None) k = (zero_resource, false) /\
  same_config p (setRedirect p uri to).
Proof.
  unfold redirectOf, setRedirect, set_redirects. cbn [redirects].
  split; [rewrite lookup_insert_eq; reflexivity|].
  split; [intros Hk; rewrite lookup_insert_ne by congruence; reflexivity|].
  split.
  { cbn [proxyHost server init strategies client]. rewrite insert_insert_eq.
    reflexivity. }
  split; [intros ->; reflexivity|].
  split; [cbn [NewQcdnProxy redirects]; rewrite lookup_empty; reflexivity|].
  repeat split.
Qed.

Lemma redirect_cache_round_trip_witness :
  redirectOf
    (setRedirect Demo.proxy_ab (mk_resource Demo.origin_a "/x")
       (mk_resource Demo.origin_b "/x"))
    (mk_resource Demo.origin_a "/y")
  = redirectOf Demo.proxy_ab (mk_resource Demo.origin_a "/y")
  /\ redirectOf Demo.proxy_ab (mk_resource Demo.origin_a "/y")
     = (zero_resource, false).
Proof.
  pose proof (redirect_cache_round_trip Demo.proxy_ab
                (mk_resource Demo.origin_a "/x") (mk_resource Demo.origin_b "/x")
                (mk_resource Demo.origin_b "/x") (mk_resource Demo.origin_a "/y"))
    as (_ & Hother & _ & Hmiss & _).
  split; [apply Hother; discriminate | apply Hmiss; vm_compute; reflexivity].
Defined.

(** ** The mutex: no deadlock *)

Section MutexProgress.
Import Locking.

Lemma count_where_finished f pl :
  Forall (fun c => c = []) pl -> f [] = false -> count_where f pl = 0%nat.
Proof.
  intros Hall Hf. induction Hall as [|c pl -> _ IH]; [reflexivity|].
  cbn [count_where]. rewrite Hf, IH. reflexivity.
Qed.

Lemma steps_left_insert (pl : list (list instr)) : forall t i rest,
  pl !! t = Some (i :: rest) ->
  S (list_sum (map (@List.length instr) (<[t := rest]> pl)))
  = list_sum (map (@List.length instr) pl).
Proof.
  induction pl as [|c pl IH]; intros t i rest Hl; [discriminate|].
  destruct t as [|t].
  - injection Hl as ->. reflexivity.
  - change (<[S t := rest]> (c :: pl)) with (c :: <[t := rest]> pl).
    cbn [map]. unfold list_sum in *. cbn [fold_right].
    specialize (IH t i rest Hl). lia.
Qed.

Lemma exec_steps_left t st st' :
  exec t st = Some st' -> S (steps_left st') = steps_left st.
Proof.
  unfold exec, steps_left.
  destruct (pool st !! t) as [[|i rest]|] eqn:Hl; [discriminate| |discriminate].
  pose proof (steps_left_insert _ _ _ _ Hl) as Hstep.
  destruct i; [| destruct (locked st) | destruct (locked st) | | |];
    try discriminate; intros [= <-]; exact Hstep.
Qed.

Lemma run_steps_left sched : forall st st',
  run sched st = Some st' ->
  (List.length sched + steps_left st' = steps_left st)%nat.
Proof.
  induction sched as [|t sched IH]; intros st st'.
  - intros [= <-]. reflexivity.
  - cbn [run]. destruct (exec t st) as [st1|] eqn:Hex; [|discriminate].
    intros Hrun. specialize (IH _ _ Hrun).
    apply exec_steps_left in Hex. cbn [List.length]. lia.
Qed.

(** X19: goroutines that only call [redirectOf] and [setRedirect] cannot
    deadlock on the mutex: in every reachable state some goroutine can
    take a step unless all have finished; every step runs one statement,
    so a run has as many steps as statements were run; and when all have
    finished the mutex is free and no map access is under way. *)
Theorem mutex_no_deadlock (m : gmap resource resource)
    (progs : list (list call)) (sched : list nat) (st : cstate) :
  run sched (start m progs) = Some st ->
  (~ finished st -> exists t st', exec t st = Some st') /\
  (List.length sched + steps_left st = steps_left (start m progs))%nat /\
  (finished st -> locked st = false /\ accessing st = 0%nat).
Proof.
  intros Hrun.
  pose proof (mutex_inv_run sched _ _ (mutex_inv_start m progs) Hrun) as Hinv.
  split; [apply exec_progress; exact Hinv|].
  split; [apply run_steps_left; exact Hrun|].
  intros Hfin. destruct Hinv as (_ & Hcount & Hacc & _).
  rewrite (count_where_finished in_critical _ Hfin eq_refl) in Hcount.
  rewrite (count_where_finished in_access _ Hfin eq_refl) in Hacc.
  split; [destruct (locked st); [discriminate | reflexivity] | symmetry; exact Hacc].
Qed.

End MutexProgress.

Lemma mutex_no_deadlock_witness :
  exists st,
    Locking.run [0; 0; 0; 0; 1; 0]%nat
      (Locking.start ∅
         (map (Locking.resolution (mk_resource Demo.origin_a "/x"))
            [mk_resource Demo.origin_b "/x"; mk_resource Demo.origin_c "/y"]))
    = Some st /\
    (exists t st', Locking.exec t st = Some st') /\
    (6 + steps_left st = 18)%nat.
Proof.
  eexists. split; [vm_compute; reflexivity|].
  pose proof (mutex_no_deadlock ∅
                (map (Locking.resolution (mk_resource Demo.origin_a "/x"))
                   [mk_resource Demo.origin_b "/x"; mk_resource Demo.origin_c "/y"])
                [0; 0; 0; 0; 1; 0]%nat _ eq_refl) as (Hprog & Hsteps & _).
  split; [|exact Hsteps].
  apply Hprog. intros Hfin. inversion Hfin as [|? ? Hc _]. discriminate Hc.
Defined.

(** ** The earlier revision of the handler, and what the later one kept *)

(** The two revisions of [parseProxyPath] compute the same parts. *)
Lemma rev0_parseProxyPath_eq (proxyPath : string) :
  Rev0.parseProxyPath proxyPath
  = match parseProxyPath proxyPath with
    | Ret (uri, ok) => Ret (scheme (base uri), host (base uri), path uri, ok)
    | Panic msg => Panic msg
    end.
Proof.
  unfold Rev0.parseProxyPath, parseProxyPath.
  destruct (slice_from 1 proxyPath) as [tail|]; [|reflexivity].
  cbv zeta.
  destruct (negb (Nat.eqb (List.length (SplitN tail "/" 2)) 2)); [reflexivity|].
  destruct (negb (Nat.eqb (List.length (SplitN _ "," 2)) 2)); reflexivity.
Qed.

(** X21: the revision that introduced [resource] did not change what
    [parseProxyPath] accepts or computes: the earlier four results are
    the fields of the later resource, the two reject the same paths and
    panic on the same path. *)
Theorem rev0_parseProxyPath_agrees (proxyPath sc ho pa : string) :
  (Rev0.parseProxyPath proxyPath = Ret (sc, ho, pa, true) <->
   parseProxyPath proxyPath = Ret (mk_resource (mk_urlBase sc ho) pa, true)) /\
  (Rev0.parseProxyPath proxyPath = Ret (sc, ho, pa, false) <->
   parseProxyPath proxyPath = Ret (zero_resource, false) /\
   sc = "" /\ ho = "" /\ pa = "") /\
  (forall msg, Rev0.parseProxyPath proxyPath = Panic msg <->
               parseProxyPath proxyPath = Panic msg).
Proof.
  rewrite rev0_parseProxyPath_eq.
  assert (Hzero : forall uri, parseProxyPath proxyPath = Ret (uri, false) ->
                              uri = zero_resource).
  { intros uri. unfold parseProxyPath.
    destruct (slice_from 1 proxyPath) as [tail|]; [|discriminate]. cbv zeta.
    destruct (negb (Nat.eqb (List.length (SplitN tail "/" 2)) 2));
      [intros [= <-]; reflexivity|].
    destruct (negb (Nat.eqb (List.length (SplitN _ "," 2)) 2));
      [intros [= <-]; reflexivity | discriminate]. }
  destruct (parseProxyPath proxyPath) as [[[[sc' ho'] pa'] ok']|msg'] eqn:Hp;
    cbn [scheme host base path].
  - split; [|split].
    + split; [intros [= -> -> -> ->]; reflexivity | intros [= -> -> -> ->]; reflexivity].
    + split.
      * intros [= -> -> -> ->]. pose proof (Hzero _ eq_refl) as [= -> -> ->].
        repeat split.
      * intros ([= -> -> -> ->] & -> & -> & ->). reflexivity.
    + intros msg. split; discriminate.
  - split; [|split].
    + split; discriminate.
    + split; [discriminate | intros [[=] _]].
    + intros msg. split; intros [= ->]; reflexivity.
Qed.

Lemma rev0_parseProxyPath_agrees_witness :
  Rev0.parseProxyPath "/https,cdn.example.com/v/a.mp4"
  = Ret ("https", "cdn.example.com", "/v/a.mp4", true).
Proof.
  apply (rev0_parseProxyPath_agrees "/https,cdn.example.com/v/a.mp4"
           "https" "cdn.example.com" "/v/a.mp4").
  vm_compute. reflexivity.
Defined.

(** The earlier [serveRequest] is the later one with [http.DefaultClient]. *)
Lemma rev0_serveRequest_eq fuel net rq s :
  Rev0.serveRequest fuel net rq s
  = match serveRequest fuel Rev0.DefaultClient net rq None s with
    | Done (b, _) s1 => Done b s1
    | Crashed msg s1 => Crashed msg s1
    | OutOfFuel => OutOfFuel
    end.
Proof.
  unfold Rev0.serveRequest, mbind, H_bind, bindH.
  destruct (serveRequest _ _ _ _ _ _) as [[b l] s1|msg s1|]; reflexivity.
Qed.

(** The earlier handler on a path that decodes: the origin, then the
    backup of the stored strategy, whatever its host. *)
Lemma rev0_handle_decoded fuel p net req sc ho pa :
  Rev0.parseProxyPath (Path (rURL req)) = Ret (sc, ho, pa, true) ->
  Rev0.run_handle fuel p net req
  = let req1 := clear_RequestURI (retarget req pa sc ho) in
    match serveRequest fuel Rev0.DefaultClient net req1 None (mk_hst p [] [] [])
    with
    | Done (true, _) s1 => Done tt s1
    | Done (false, _) s1 =>
        match strategies (h_proxy s1) !! mk_urlBase sc ho with
        | None =>
            Done tt (mk_hst (h_proxy s1)
                       (h_w s1 ++ [HttpError "url strategy not found" 500])
                       (h_calls s1) (h_log s1))
        | Some s =>
            match serveRequest fuel Rev0.DefaultClient net
                    (retarget req1 pa (scheme (backup s)) (host (backup s)))
                    None s1 with
            | Done (true, _) s2 => Done tt s2
            | Done (false, _) s2 =>
                Done tt (mk_hst (h_proxy s2)
                           (h_w s2
                            ++ [HttpError "both main and backup server fail" 500])
                           (h_calls s2) (h_log s2))
            | Crashed msg s2 => Crashed msg s2
            | OutOfFuel => OutOfFuel
            end
        end
    | Crashed msg s1 => Crashed msg s1
    | OutOfFuel => OutOfFuel
    end.
Proof.
  intros Hparse. unfold Rev0.run_handle, Rev0.handle.
  unfold mbind at 1. unfold H_bind at 1. unfold bindH at 1. unfold liftH.
  rewrite Hparse. cbn [negb]. cbv zeta.
  unfold mbind at 1. unfold H_bind at 1. unfold bindH at 1.
  rewrite rev0_serveRequest_eq.
  destruct (serveRequest _ _ _ _ _ _) as [[[|] l] s1|msg s1|]; try reflexivity.
  unfold mbind at 1. unfold H_bind at 1. unfold bindH at 1. unfold get_proxy.
  destruct (strategies (h_proxy s1) !! mk_urlBase sc ho) as [s|]; [|reflexivity].
  unfold mbind at 1. unfold H_bind at 1. unfold bindH at 1.
  rewrite rev0_serveRequest_eq.
  cbn [Path rURL clear_RequestURI retarget set_Host set_Scheme set_Path].
  destruct (serveRequest _ _ _ _ _ _) as [[[|] l2] s2|msg s2|]; reflexivity.
Qed.


(** The closure of [handle] decides as the default policy does; it only
    assigns [last]. *)
Lemma do_loop_recording fuel : forall net reqs req l l0 sent,
  do_loop fuel defaultCheckRedirect net reqs req l0 sent
  = match do_loop fuel handle_CheckRedirect net reqs req l sent with
    | Some (resp, err, _, hops) => Some (resp, err, l0, hops)
    | None => None
    end.
Proof.
  induction fuel as [|fuel IH]; intros net reqs req l l0 sent; [reflexivity|].
  cbn [do_loop].
  destruct (net sent req) as [|r|r loc]; [reflexivity ..|].
  unfold defaultCheckRedirect at 1, handle_CheckRedirect at 1.
  destruct (10 <=? Z.of_nat (List.length (reqs ++ [req]))); [reflexivity|].
  rewrite (IH net (reqs ++ [req]) (redirect_request loc)
             (Some (redirect_request loc)) l0 (sent ++ [req])).
  destruct (do_loop fuel handle_CheckRedirect _ _ _ _ _)
    as [[[[r2 e2] l2] h2]|]; reflexivity.
Qed.

(** X22: the recording closure that [handle] installs on a cache miss
    changes nothing of what the client does: a client without a policy
    of its own sends the same requests and returns the same response and
    error with and without it. *)
Theorem recording_client_same_answers (fuel : nat) (c : Client) (net : network)
    (req : Request) (l : option Request) (sent : list Request) :
  CheckRedirect c = None ->
  Client_Do fuel c net req l sent
  = match Client_Do fuel (with_CheckRedirect c handle_CheckRedirect) net req
            None sent with
    | Some (resp, err, _, hops) => Some (resp, err, l, hops)
    | None => None
    end.
Proof.
  intros Hnil. unfold Client_Do, checkRedirect. rewrite Hnil.
  cbn [with_CheckRedirect CheckRedirect]. apply do_loop_recording.
Qed.

Lemma recording_client_same_answers_witness :
  Client_Do 11 (mk_Client 0 None) Demo.net_b_redirects
    (mk_Request (mk_URL "http" "b" "/x" "" "") "b" "") None []
  = Some (Some (Demo.ok200 "moved"), None, None,
          [mk_Request (mk_URL "http" "b" "/x" "" "") "b" "";
           redirect_request (mk_URL "http" "c" "/y" "" "")]).
Proof.
  rewrite (recording_client_same_answers 11 (mk_Client 0 None)
             Demo.net_b_redirects
             (mk_Request (mk_URL "http" "b" "/x" "" "") "b" "") None []
             eq_refl).
  reflexivity.
Defined.

(** X23: in the earlier revision an origin that answers with anything
    but a 5xx ends the handler: one call with [http.DefaultClient], that
    response on the writer, the proxy as it was. *)
Theorem rev0_handle_primary_served_stops (fuel : nat) (p : QcdnProxy)
    (net : network) (req : Request) (sc ho pa : string) (r : Response)
    (l : option Request) (hops : list Request) :
  Rev0.parseProxyPath (Path (rURL req)) = Ret (sc, ho, pa, true) ->
  Client_Do fuel Rev0.DefaultClient net
    (clear_RequestURI (retarget req pa sc ho)) None []
  = Some (Some r, None, l, hops) ->
  ~ (500 <= StatusCode r <= 599) ->
  Rev0.run_handle fuel p net req
  = Done tt
      (mk_hst p (stream r)
         [mk_attempt Rev0.DefaultClient
            (clear_RequestURI (retarget req pa sc ho)) hops (Some r) None l]
         []).
Proof.
  intros Hparse Hdo H5. rewrite (rev0_handle_decoded _ _ _ _ _ _ _ Hparse).
  cbv zeta.
  rewrite (serveRequest_served _ _ _ _ _ (mk_hst p [] [] []) r l hops Hdo).
  - reflexivity.
  - intros Hq. apply H5. apply quot_100_is_5. exact Hq.
Qed.

Lemma rev0_handle_primary_served_stops_witness :
  Rev0.run_handle 11 Demo.proxy_ab Demo.net_all_ok (incoming "/http,a/x")
  = Done tt
      (mk_hst Demo.proxy_ab (stream (Demo.ok200 "main"))
         [mk_attempt Rev0.DefaultClient Demo.req_ax [Demo.req_ax]
            (Some (Demo.ok200 "main")) None None]
         []).
Proof.
  apply (rev0_handle_primary_served_stops 11 Demo.proxy_ab Demo.net_all_ok
           (incoming "/http,a/x") "http" "a" "/x" (Demo.ok200 "main") None
           [Demo.req_ax]).
  - reflexivity.
  - reflexivity.
  - cbn. lia.
Defined.





